(** * EnumStoreBase: buffer sizing, hold lists, compaction, bulk load

    A shallow embedding of
    [searchlib/src/vespa/searchlib/attribute/enumstorebase.cpp]
    together with the properties of it that the design document states.

    Conventions.
    - [size_t], [uint64_t] and [ssize_t] values are integers of [Z]; the
      wrap-around of unsigned 64-bit arithmetic is written out with
      [wrap64].
    - A call that can leave the function abnormally returns a [result]:
      a value, a thrown exception, a failed [assert], or undefined
      behaviour of the C++ abstract machine. *)

From Stdlib Require Import ZArith List Bool Lia PeanoNat Permutation.
From Stdlib Require Import Strings.Byte.
Import ListNotations.

Local Open Scope Z_scope.

(** ** Outcomes of a call *)

Inductive exn : Type :=
| IllegalStateException (minNewSize maxSize : Z).

Inductive result (A : Type) : Type :=
| Returned (a : A)
| Thrown (e : exn)
| AssertionFailed
| Undefined.

Arguments Returned {A} a.
Arguments Thrown {A} e.
Arguments AssertionFailed {A}.
Arguments Undefined {A}.

(** ** Machine arithmetic *)

Definition wrap64 (z : Z) : Z := z mod 2 ^ 64.

(** The nearest IEEE-754 binary64 value to the non-negative integer [q],
    ties to even: [q] keeps its 53 leading bits. *)
Definition round_to_double (q : Z) : Z :=
  let bits := Z.log2 q + 1 in
  if bits <=? 53 then q
  else
    let sh := bits - 53 in
    let m := Z.shiftr q sh in
    let r := Z.land q (Z.ones sh) in
    let half := Z.shiftl 1 (sh - 1) in
    let m' := if (half <? r) || ((r =? half) && Z.odd m) then m + 1 else m in
    Z.shiftl m' sh.

(** [newSize *= growRatio] with [uint64_t newSize] and
    [double growRatio = 1.5f]: the integer is converted to double, the
    product [3 * d / 2] is rounded to double (scaling by two is exact, so
    the numerator is rounded), and the conversion back truncates.  The
    conversion is undefined when the product does not fit 64 bits. *)
Definition mul_growRatio (n : Z) : option Z :=
  let d := round_to_double n in
  let p := round_to_double (3 * d) / 2 in
  if p <? 2 ^ 64 then Some p else None.

(** ** EnumStoreBase::EnumBufferType *)

Module EnumBufferType.

(** The members of [datastore::BufferType<char>] that [calcArraysToAlloc]
    reads, followed by the members [EnumBufferType] adds. *)
Record t : Type := mk {
  _arraySize : Z;               (* uint32_t *)
  _minArrays : Z;               (* uint32_t *)
  _maxArrays : Z;               (* uint32_t *)
  _activeUsedElems : Z;         (* size_t *)
  _lastUsedElems : option Z;    (* const size_t *, nullptr is None *)
  _minSizeNeeded : Z;           (* uint64_t *)
  _deadElems : Z;               (* uint64_t *)
  _pendingCompact : bool;
  _wantCompact : bool
}.

Section WithIndex.

(** [Index] (the entry reference type) and the reserved-element accessor of
    the base class are declared in headers outside this file; they are
    parameters here. *)
Variable alignment : Z.                     (* the alignment unit of Index *)
Variable offsetSize : Z.                    (* Index::offsetSize() *)
Variable getReservedElements : t -> Z -> Z. (* BufferTypeBase *)

(** Modelled from the spec: [Index::align] is declared outside this file; a
    size is "rounded up to an alignment unit". *)
Definition Index_align (val : Z) : Z :=
  (val + alignment - 1) / alignment * alignment.

(** Modelled from the spec: [alignBufferSize] is declared with the class,
    outside this file; it rounds a buffer size up in the same way. *)
Definition alignBufferSize (val : Z) : Z := Index_align val.

(** [EnumBufferType::EnumBufferType()] *)
Definition EnumBufferType : t :=
  {| _arraySize := Index_align 1;
     _minArrays := offsetSize / Index_align 1;
     _maxArrays := offsetSize / Index_align 1;
     _activeUsedElems := 0;
     _lastUsedElems := None;
     _minSizeNeeded := 0;
     _deadElems := 0;
     _pendingCompact := false;
     _wantCompact := false |}.

(** [setSizeNeededAndDead(sizeNeeded, deadElems)] *)
Definition setSizeNeededAndDead (sizeNeeded deadElems : Z) (bt : t) : t :=
  {| _arraySize := _arraySize bt;
     _minArrays := _minArrays bt;
     _maxArrays := _maxArrays bt;
     _activeUsedElems := _activeUsedElems bt;
     _lastUsedElems := _lastUsedElems bt;
     _minSizeNeeded := sizeNeeded;
     _deadElems := deadElems;
     _pendingCompact := _pendingCompact bt;
     _wantCompact := _wantCompact bt |}.

(** [setWantCompact()] *)
Definition setWantCompact (bt : t) : t :=
  {| _arraySize := _arraySize bt;
     _minArrays := _minArrays bt;
     _maxArrays := _maxArrays bt;
     _activeUsedElems := _activeUsedElems bt;
     _lastUsedElems := _lastUsedElems bt;
     _minSizeNeeded := _minSizeNeeded bt;
     _deadElems := _deadElems bt;
     _pendingCompact := _pendingCompact bt;
     _wantCompact := true |}.

(** [EnumStoreBase::failNewSize] always throws. *)
Definition failNewSize {A} (minNewSize maxSize : Z) : result A :=
  Thrown (IllegalStateException minNewSize maxSize).

(** [usedElems] as computed at the head of [calcArraysToAlloc]. *)
Definition usedElems (bt : t) : Z :=
  match _lastUsedElems bt with
  | Some last => wrap64 (_activeUsedElems bt + last)
  | None => _activeUsedElems bt
  end.

(** [EnumStoreBase::EnumBufferType::calcArraysToAlloc] *)
Definition calcArraysToAlloc (bt : t) (bufferId sizeNeeded : Z)
    (resizing : bool) : result Z :=
  let reservedElements := getReservedElements bt bufferId in
  let sizeNeeded := Z.max sizeNeeded (_minSizeNeeded bt) in
  let usedElems := usedElems bt in
  if negb (usedElems mod _arraySize bt =? 0) then AssertionFailed else
  let maxSize := _maxArrays bt * _arraySize bt in
  let newSize := wrap64 (usedElems - _deadElems bt + sizeNeeded) in
  match (if usedElems =? 0 then Some newSize else mul_growRatio newSize) with
  | None => Undefined
  | Some newSize =>
    let newSize := wrap64 (newSize + reservedElements) in
    let newSize := wrap64 (alignBufferSize newSize) in
    if negb (newSize mod _arraySize bt =? 0) then AssertionFailed else
    if newSize <=? maxSize then Returned (newSize / _arraySize bt) else
    let newSize :=
      wrap64 (usedElems - _deadElems bt + sizeNeeded + reservedElements
              + 1000000) in
    let newSize := wrap64 (alignBufferSize newSize) in
    if negb (newSize mod _arraySize bt =? 0) then AssertionFailed else
    if newSize <=? maxSize then Returned (_maxArrays bt) else
    failNewSize newSize maxSize
  end.

(** *** The sizes in the words of the design document *)

(** Round [x] up to a multiple of [unit]: the least multiple not below. *)
Definition is_rounded_up (unit x y : Z) : Prop :=
  x <= y /\ y mod unit = 0 /\ forall y', x <= y' -> y' mod unit = 0 -> y <= y'.

(** Growth policy as the document words it:
    [max(minSizeNeeded, (live - dead + sizeNeeded) * 1.5) + reserved],
    rounded up. *)
Definition documented_target_size (bt : t) (bufferId sizeNeeded : Z) : Z :=
  alignBufferSize
    (Z.max (_minSizeNeeded bt)
           (3 * (usedElems bt - _deadElems bt + sizeNeeded) / 2)
     + getReservedElements bt bufferId).

(** Growth policy as the code has it: the larger of the request and the
    recorded minimum is added to the live elements, the sum grows by one
    half only when the buffer type holds elements already. *)
Definition grown_size (bt : t) (sizeNeeded : Z) : Z :=
  let base := usedElems bt - _deadElems bt
              + Z.max sizeNeeded (_minSizeNeeded bt) in
  if usedElems bt =? 0 then base else 3 * base / 2.

(** The first size tried, and the size of the retry. *)
Definition first_size (bt : t) (bufferId sizeNeeded : Z) : option Z :=
  let needed := Z.max sizeNeeded (_minSizeNeeded bt) in
  let base := wrap64 (usedElems bt - _deadElems bt + needed) in
  match (if usedElems bt =? 0 then Some base else mul_growRatio base) with
  | None => None
  | Some g =>
    Some (wrap64 (alignBufferSize (wrap64 (g + getReservedElements bt bufferId))))
  end.

Definition retry_size (bt : t) (bufferId sizeNeeded : Z) : Z :=
  let needed := Z.max sizeNeeded (_minSizeNeeded bt) in
  wrap64 (alignBufferSize
    (wrap64 (usedElems bt - _deadElems bt + needed
             + getReservedElements bt bufferId + 1000000))).

End WithIndex.

End EnumBufferType.

(** ** Generations and hold lists *)

Module HoldList.

Definition generation_t : Type := Z.

(** What a writer can retire: a whole buffer, an entry of a buffer, or a
    node of the dictionary. *)
Inductive resource : Type :=
| HeldBuffer (bufferId : nat)
| HeldEntry (ref : Z)
| HeldNode (node : Z).

(** Modelled from the spec: the hold lists live in the data store and in the
    dictionary, neither of which is in this file.  A hold-list entry is
    "(resourceHandle, retiredAtGeneration)". *)
Record entry : Type := hold {
  resourceHandle : resource;
  retiredAtGeneration : generation_t
}.

Definition t : Type := list entry.

Definition retired_before (firstUsed : generation_t) (e : entry) : bool :=
  retiredAtGeneration e <? firstUsed.

(** Modelled from the spec: trimming "scans each HoldList and physically
    frees every entry whose retiredAtGeneration < firstUsed".  The first
    component is what is freed, the second what stays on hold. *)
Definition trim (firstUsed : generation_t) (h : t) : list resource * t :=
  (map resourceHandle (filter (retired_before firstUsed) h),
   filter (fun e => negb (retired_before firstUsed e)) h).

End HoldList.

(** ** The data store under the enum store *)

Module DataStore.

(** [datastore::BufferState::State] *)
Inductive State : Type := FREE | ACTIVE | HOLD.

Definition State_eqb (a b : State) : bool :=
  match a, b with
  | FREE, FREE | ACTIVE, ACTIVE | HOLD, HOLD => true
  | _, _ => false
  end.

(** Modelled from the spec: [BufferState] is declared outside this file.  A
    buffer header tracks "used element count, dead element count,
    growth/compaction intent flags"; [size()] is the used element count. *)
Record BufferState : Type := mkBufferState {
  _usedElems : Z;
  _allocElems : Z;
  _deadElems : Z;
  _state : State;
  _typeId : nat;
  _compacting : bool
}.

Definition size (b : BufferState) : Z := _usedElems b.
Definition getDeadElems (b : BufferState) : Z := _deadElems b.
Definition getState (b : BufferState) : State := _state b.

Definition freeState : BufferState :=
  {| _usedElems := 0; _allocElems := 0; _deadElems := 0; _state := FREE;
     _typeId := 0; _compacting := false |}.

Record t : Type := mk {
  _states : list BufferState;
  _activeBufferIds : list nat;          (* indexed by type id *)
  _holdList : HoldList.t;
  _freed : list HoldList.resource       (* what has been given back *)
}.

Definition getNumBuffers (ds : t) : nat := length (_states ds).

Definition getBufferState (ds : t) (bufferId : nat) : BufferState :=
  nth bufferId (_states ds) freeState.

Definition getActiveBufferId (ds : t) (typeId : nat) : nat :=
  nth typeId (_activeBufferIds ds) 0%nat.

Definition setCompacting (b : BufferState) : BufferState :=
  {| _usedElems := _usedElems b; _allocElems := _allocElems b;
     _deadElems := _deadElems b; _state := _state b; _typeId := _typeId b;
     _compacting := true |}.

Definition onActive (typeId : nat) (b : BufferState) : BufferState :=
  {| _usedElems := 0; _allocElems := _allocElems b; _deadElems := 0;
     _state := ACTIVE; _typeId := typeId; _compacting := false |}.

(** A buffer of the type that takes allocations and is not yet part of a
    compaction. *)
Definition to_compact (typeId : nat) (b : BufferState) : bool :=
  State_eqb (_state b) ACTIVE && Nat.eqb (_typeId b) typeId
  && negb (_compacting b).

Fixpoint find_state (status : State) (i : nat) (l : list BufferState)
    : option nat :=
  match l with
  | [] => None
  | b :: l' => if State_eqb (getState b) status then Some i
               else find_state status (S i) l'
  end.

Fixpoint ids_to_compact (typeId : nat) (i : nat) (l : list BufferState)
    : list nat :=
  match l with
  | [] => []
  | b :: l' => if to_compact typeId b then i :: ids_to_compact typeId (S i) l'
               else ids_to_compact typeId (S i) l'
  end.

Fixpoint update_nth {A} (n : nat) (f : A -> A) (l : list A) : list A :=
  match l, n with
  | [], _ => []
  | x :: l', O => f x :: l'
  | x :: l', S n' => x :: update_nth n' f l'
  end.

(** Modelled from the spec: [startCompact] begins "a compaction epoch for
    one entry type; during this window new allocations go to a fresh buffer
    while old buffers are marked read-only and scheduled onto the HoldList".
    The old buffers of the type are marked as compacting and returned, and
    the first free buffer becomes the active one. *)
Definition startCompact (typeId : nat) (ds : t) : list nat * t :=
  let toHold := ids_to_compact typeId 0 (_states ds) in
  let marked :=
    map (fun b => if to_compact typeId b then setCompacting b else b)
        (_states ds) in
  match find_state FREE 0 marked with
  | Some fresh =>
      (toHold,
       {| _states := update_nth fresh (onActive typeId) marked;
          _activeBufferIds :=
            update_nth typeId (fun _ => fresh) (_activeBufferIds ds);
          _holdList := _holdList ds;
          _freed := _freed ds |})
  | None =>
      (toHold,
       {| _states := marked;
          _activeBufferIds := _activeBufferIds ds;
          _holdList := _holdList ds;
          _freed := _freed ds |})
  end.

(** Modelled from the spec: [DataStoreBase::trimHoldLists] frees what was
    retired before [firstUsed]. *)
Definition trimHoldLists (firstUsed : HoldList.generation_t) (ds : t) : t :=
  let '(freed, kept) := HoldList.trim firstUsed (_holdList ds) in
  {| _states := _states ds;
     _activeBufferIds := _activeBufferIds ds;
     _holdList := kept;
     _freed := _freed ds ++ freed |}.

End DataStore.

(** ** The dictionary *)

Module Dictionary.

(** Modelled from the spec: the dictionary is an external collaborator, an
    "ordered associative container" with "generation-aware node retirement
    routed through the same HoldList".  Its tree is kept as the in-order
    sequence of its entries. *)
Record t (Index DataType : Type) : Type := mk {
  _tree : list (Index * DataType);
  _holdList : HoldList.t;
  _freed : list HoldList.resource
}.

Arguments mk {Index DataType}.
Arguments _tree {Index DataType}.
Arguments _holdList {Index DataType}.
Arguments _freed {Index DataType}.

(** Modelled from the spec: [trim_hold_lists] of the dictionary. *)
Definition trim_hold_lists {Index DataType}
    (firstUsed : HoldList.generation_t) (d : t Index DataType)
    : t Index DataType :=
  let '(freed, kept) := HoldList.trim firstUsed (_holdList d) in
  {| _tree := _tree d; _holdList := kept; _freed := _freed d ++ freed |}.

End Dictionary.

(** ** EnumStoreBase *)

Module EnumStoreBase.

(** [EnumStoreIndex], a packed 32-bit entry reference. *)
Definition Index : Type := Z.

(** [vespalib::AddressSpace(used, dead, limit)] *)
Record AddressSpace : Type := mkAddressSpace {
  _used : Z;
  _dead : Z;
  _limit : Z
}.

Record t (DataType : Type) : Type := mk {
  _enumDict : Dictionary.t Index DataType;
  _store : DataStore.t;
  _type : EnumBufferType.t;
  _toHoldBuffers : list nat
}.

Arguments mk {DataType}.
Arguments _enumDict {DataType}.
Arguments _store {DataType}.
Arguments _type {DataType}.
Arguments _toHoldBuffers {DataType}.

(** The constants of [Index] and of the store that the header declares. *)
Class IndexLayout : Type := {
  alignment : Z;          (* the alignment unit of Index *)
  offsetSize : Z;         (* Index::offsetSize() *)
  numBuffers : nat;       (* Index::numBuffers() *)
  TYPE_ID : nat
}.

(** The pure virtual members, implemented by [EnumStoreT<EntryType>].  Each
    [deserialize] overload takes the bytes at the read pointer and the
    number of bytes available and gives the size consumed, negative for an
    input it cannot parse; the first updates [initSpace] through its
    reference argument, the second gives the index of the entry it stored
    and threads the store. *)
Class Virtuals (DataType : Type) : Type := {
  deserialize_initSpace : list byte -> Z -> Z -> Z * Z;
  deserialize_index :
    list byte -> Z -> Index -> t DataType -> Z * Index * t DataType;
  fixupRefCount : Index -> Z -> t DataType -> t DataType;
  freeUnusedEnums : bool -> t DataType -> t DataType
}.

(** Members of the data store and of the dictionary that [reset] calls and
    whose definitions are outside this file. *)
Class Collaborators (DataType : Type) : Type := {
  clearHoldLists : DataStore.t -> DataStore.t;
  dropBuffers : DataStore.t -> DataStore.t;
  initActiveBuffers : DataStore.t -> DataStore.t;
  onReset : Dictionary.t Index DataType -> Dictionary.t Index DataType
}.

(** Calls observed during bulk load and fix-up, in program order. *)
Inductive event : Type :=
| EvDeserializeSize (offset left sz : Z)
| EvReset (initBufferSize : Z)
| EvDeserializeIndex (offset left sz : Z)
| EvPushBack (i : Index)
| EvBuilderInsert (i : Index)
| EvTreeAssign
| EvTreeBegin
| EvFixupRefCount (key : Index) (refCount : Z)
| EvFreeUnusedEnums (movePostingIdx : bool).

(** How a [while (left > 0)] loop of [deserialize0] ends: it runs to the
    end, it leaves the function with [return sz], or the model runs out of
    fuel while the loop is still going. *)
Inductive pass (A : Type) : Type :=
| PassDone (a : A)
| PassReturn (sz : Z)
| PassOutOfFuel.

Arguments PassDone {A} a.
Arguments PassReturn {A} sz.
Arguments PassOutOfFuel {A}.

(** [size_t] to [ssize_t] *)
Definition to_ssize (z : Z) : Z := if z <? 2 ^ 63 then z else z - 2 ^ 64.

Section Members.

Context {DataType : Type}.
Context {layout : IndexLayout}.
Context {virtuals : Virtuals DataType}.
Context {collaborators : Collaborators DataType}.
Variable defaultData : DataType.   (* Tree::DataType() *)

Abbreviation store := (t DataType).
Abbreviation Tree := (list (Index * DataType)).

(** [EnumStoreBase::reset] *)
Definition reset (initBufferSize : Z) (s : store) : store :=
  let st := clearHoldLists (_store s) in
  let st := dropBuffers st in
  let ty := EnumBufferType.setSizeNeededAndDead initBufferSize 0 (_type s) in
  let st := initActiveBuffers st in
  {| _enumDict := onReset (_enumDict s);
     _store := st;
     _type := ty;
     _toHoldBuffers := _toHoldBuffers s |}.

(** [EnumStoreBase::getBufferIndex] *)
Definition getBufferIndex (status : DataStore.State) (s : store) : nat :=
  match DataStore.find_state status 0 (DataStore._states (_store s)) with
  | Some i => i
  | None => numBuffers
  end.

(** [EnumStoreBase::getAddressSpaceUsage] *)
Definition getAddressSpaceUsage (s : store) : AddressSpace :=
  let activeState :=
    DataStore.getBufferState (_store s)
      (DataStore.getActiveBufferId (_store s) TYPE_ID) in
  mkAddressSpace (DataStore.size activeState)
                 (DataStore.getDeadElems activeState)
                 offsetSize.

(** [EnumStoreBase::trimHoldLists] *)
Definition trimHoldLists (firstUsed : HoldList.generation_t) (s : store)
    : store :=
  let d := Dictionary.trim_hold_lists firstUsed (_enumDict s) in
  let st := DataStore.trimHoldLists firstUsed (_store s) in
  {| _enumDict := d;
     _store := st;
     _type := _type s;
     _toHoldBuffers := _toHoldBuffers s |}.

(** [EnumStoreBase::preCompact] *)
Definition preCompact (bytesNeeded : Z) (s : store) : bool * store :=
  if Nat.eqb (getBufferIndex DataStore.FREE s) numBuffers then (false, s)
  else
    let activeBufId := DataStore.getActiveBufferId (_store s) TYPE_ID in
    let activeBuf := DataStore.getBufferState (_store s) activeBufId in
    let ty :=
      EnumBufferType.setSizeNeededAndDead bytesNeeded
        (DataStore.getDeadElems activeBuf) (_type s) in
    let '(toHold, st) := DataStore.startCompact TYPE_ID (_store s) in
    (true,
     {| _enumDict := _enumDict s;
        _store := st;
        _type := ty;
        _toHoldBuffers := toHold |}).

(** The first loop of [deserialize0]: [p] is the offset of the read pointer
    into [src].  Next to its result a function gives the calls it made. *)
Fixpoint size_pass (fuel : nat) (src : list byte) (p left initSpace : Z)
    : pass Z * list event :=
  if 0 <? left then
    match fuel with
    | O => (PassOutOfFuel, [])
    | S fuel' =>
      let '(sz, initSpace') :=
        deserialize_initSpace (skipn (Z.to_nat p) src) left initSpace in
      if sz <? 0 then (PassReturn sz, [EvDeserializeSize p left sz])
      else
        let '(r, evs) :=
          size_pass fuel' src (p + sz) (wrap64 (left - sz)) initSpace' in
        (r, EvDeserializeSize p left sz :: evs)
    end
  else (PassDone initSpace, []).

(** The second loop of [deserialize0]; the result of a finished pass is the
    final value of [left]. *)
Fixpoint index_pass (fuel : nat) (src : list byte) (p left : Z)
    (idx1 : Index) (idx : list Index) (s : store)
    : pass Z * (list Index * store * list event) :=
  if 0 <? left then
    match fuel with
    | O => (PassOutOfFuel, (idx, s, []))
    | S fuel' =>
      let '(sz, idx1', s') :=
        deserialize_index (skipn (Z.to_nat p) src) left idx1 s in
      if sz <? 0 then
        (PassReturn sz, (idx, s', [EvDeserializeIndex p left sz]))
      else
        let '(r, (idx', s'', evs)) :=
          index_pass fuel' src (p + sz) (wrap64 (left - sz)) idx1'
            (idx ++ [idx1']) s' in
        (r, (idx', s'',
             EvDeserializeIndex p left sz :: EvPushBack idx1' :: evs))
    end
  else (PassDone left, (idx, s, [])).

(** [EnumStoreBase::deserialize0]; [None] is a loop that has not ended
    within the fuel. *)
Definition deserialize0 (fuel : nat) (src : list byte) (available : Z)
    (idx : list Index) (s : store)
    : option Z * (list Index * store * list event) :=
  let left := available in
  let initSpace := EnumBufferType.Index_align alignment 1 in
  match size_pass fuel src 0 left initSpace with
  | (PassOutOfFuel, evs) => (None, (idx, s, evs))
  | (PassReturn sz, evs) => (Some sz, (idx, s, evs))
  | (PassDone initSpace, evs) =>
    let s := reset initSpace s in
    let left := available in
    let idx1 : Index := 0 in
    match index_pass fuel src 0 left idx1 idx s with
    | (PassOutOfFuel, (idx, s, evs2)) =>
      (None, (idx, s, evs ++ EvReset initSpace :: evs2))
    | (PassReturn sz, (idx, s, evs2)) =>
      (Some sz, (idx, s, evs ++ EvReset initSpace :: evs2))
    | (PassDone left', (idx, s, evs2)) =>
      (Some (to_ssize (wrap64 (available - left'))),
       (idx, s, evs ++ EvReset initSpace :: evs2))
    end
  end.

(** [EnumStoreBase::deserialize<Tree>]: the tree is passed by reference and
    is returned here next to the index vector. *)
Definition deserialize (fuel : nat) (src : list byte) (available : Z)
    (idx : list Index) (tree : Tree) (s : store)
    : option Z * (list Index * Tree * store * list event) :=
  match deserialize0 fuel src available idx s with
  | (None, (idx, s, evs)) => (None, (idx, tree, s, evs))
  | (Some sz, (idx, s, evs)) =>
    if 0 <=? sz then
      let builder := map (fun i => (i, defaultData)) idx in
      (Some sz,
       (idx, builder, s, evs ++ map EvBuilderInsert idx ++ [EvTreeAssign]))
    else (Some sz, (idx, tree, s, evs))
  end.

(** The loop of [fixupRefCounts]: [ti] is the tree iterator, the entries
    from its position on; it is valid while an entry is left. *)
Fixpoint fixup_loop (hi : list Z) (ti : Tree) (s : store)
    : result Tree * (store * list event) :=
  match hi with
  | [] => (Returned ti, (s, []))
  | rc :: hi' =>
    match ti with
    | [] => (AssertionFailed, (s, []))
    | (key, _) :: ti' =>
      let '(r, (s', evs)) := fixup_loop hi' ti' (fixupRefCount key rc s) in
      (r, (s', EvFixupRefCount key rc :: evs))
    end
  end.

(** [EnumStoreBase::fixupRefCounts<Tree>] *)
Definition fixupRefCounts (hist : list Z) (tree : Tree) (s : store)
    : result unit * (store * list event) :=
  match hist with
  | [] => (Returned tt, (s, []))
  | _ :: _ =>
    let ti := tree in
    match fixup_loop hist ti s with
    | (Returned ti, (s, evs)) =>
      match ti with
      | _ :: _ => (AssertionFailed, (s, EvTreeBegin :: evs))
      | [] => (Returned tt,
               (freeUnusedEnums false s,
                EvTreeBegin :: evs ++ [EvFreeUnusedEnums false]))
      end
    | (Thrown e, (s, evs)) => (Thrown e, (s, EvTreeBegin :: evs))
    | (AssertionFailed, (s, evs)) => (AssertionFailed, (s, EvTreeBegin :: evs))
    | (Undefined, (s, evs)) => (Undefined, (s, EvTreeBegin :: evs))
    end
  end.

(** *** The bulk load in the words of the design document *)

(** A record as a pass sees it: the offset it starts at, the bytes left
    from there, and the size the parse step reports. *)
Definition record : Type := (Z * Z * Z)%type.

Definition size_event (r : record) : event :=
  let '(p, left', sz) := r in EvDeserializeSize p left' sz.

Definition index_events (r : record * Index) : list event :=
  let '((p, left', sz), i) := r in
  [EvDeserializeIndex p left' sz; EvPushBack i].

(** The first pass "computes required buffer size": it goes over the input
    from [p], record by record, to the end, and only accumulates
    [initSpace]. *)
Inductive first_pass (src : list byte)
    : Z -> Z -> Z -> list record -> Z -> Prop :=
| first_pass_end p initSpace :
    first_pass src p 0 initSpace [] initSpace
| first_pass_step p left initSpace sz initSpace' recs final :
    0 < left ->
    deserialize_initSpace (skipn (Z.to_nat p) src) left initSpace
      = (sz, initSpace') ->
    0 < sz <= left ->
    first_pass src (p + sz) (left - sz) initSpace' recs final ->
    first_pass src p left initSpace ((p, left, sz) :: recs) final.

(** The second pass "builds the ordered structure": it goes over the input
    from [p] again and yields one index for each record. *)
Inductive second_pass (src : list byte)
    : Z -> Z -> Index -> store -> list (record * Index) -> store -> Prop :=
| second_pass_end p idx1 s :
    second_pass src p 0 idx1 s [] s
| second_pass_step p left idx1 s sz idx1' s' recs final :
    0 < left ->
    deserialize_index (skipn (Z.to_nat p) src) left idx1 s
      = (sz, idx1', s') ->
    0 < sz <= left ->
    second_pass src (p + sz) (left - sz) idx1' s' recs final ->
    second_pass src p left idx1 s (((p, left, sz), idx1') :: recs) final.

(** A parse step reports a negative size. *)
Definition is_negative (e : event) : bool :=
  match e with
  | EvDeserializeSize _ _ sz | EvDeserializeIndex _ _ sz => sz <? 0
  | _ => false
  end.

Definition parsed_size (e : event) : option Z :=
  match e with
  | EvDeserializeSize _ _ sz | EvDeserializeIndex _ _ sz => Some sz
  | _ => None
  end.

(** A call of the tree builder. *)
Definition is_builder_call (e : event) : bool :=
  match e with
  | EvBuilderInsert _ | EvTreeAssign => true
  | _ => false
  end.

(** The calls end with a parse step that reports the negative [sz], and no
    step before it reports a negative size. *)
Definition ends_negative (sz : Z) (evs : list event) : Prop :=
  exists pre e,
    evs = pre ++ [e] /\ parsed_size e = Some sz /\ sz < 0
    /\ Forall (fun e => is_negative e = false) pre.

Definition none_negative (evs : list event) : Prop :=
  Forall (fun e => is_negative e = false) evs.

(** The counts of the history given to the entries of the tree, in order. *)
Definition apply_history (tree : Tree) (hist : list Z) (s : store) : store :=
  fold_left (fun s kh => fixupRefCount (fst (fst kh)) (snd kh) s)
            (combine tree hist) s.

(** The in-order walk over tree and history side by side. *)
Definition fixup_events (tree : Tree) (hist : list Z) : list event :=
  map (fun kh => EvFixupRefCount (fst (fst kh)) (snd kh)) (combine tree hist).

End Members.

End EnumStoreBase.

(** ** UniqueStore *)

Module UniqueStore.

(** An entry reference is the position of the entry in the arena. *)
Definition EntryRef : Type := nat.

Section WithComparator.

Variable EntryT : Type.
Variable less : EntryT -> EntryT -> bool.   (* Compare *)

(** Two values are equal by the comparator when neither orders before the
    other. *)
Definition equal (a b : EntryT) : bool :=
  negb (less a b) && negb (less b a).

Record UniqueStoreEntry : Type := mkEntry {
  _value : EntryT;
  _refCount : nat
}.

Record AddResult : Type := mkAddResult {
  ref : EntryRef;
  isNew : bool
}.

(** Modelled from the spec: only the class declaration of [UniqueStore] is
    in the sources.  The arena allocates by bump pointer, so a new entry
    takes the next position and a freed slot is not reused; the dictionary
    is an "ordered associative structure mapping a value to its EntryRef",
    kept in ascending order of the comparator. *)
Record t : Type := mk {
  _store : list UniqueStoreEntry;
  _dict : list (EntryT * EntryRef)
}.

Definition empty : t := {| _store := []; _dict := [] |}.

Fixpoint dict_find (v : EntryT) (d : list (EntryT * EntryRef))
    : option EntryRef :=
  match d with
  | [] => None
  | (k, r) :: d' => if equal v k then Some r else dict_find v d'
  end.

Fixpoint dict_insert (v : EntryT) (r : EntryRef)
    (d : list (EntryT * EntryRef)) : list (EntryT * EntryRef) :=
  match d with
  | [] => [(v, r)]
  | (k, r') :: d' =>
    if less v k then (v, r) :: (k, r') :: d'
    else (k, r') :: dict_insert v r d'
  end.

Definition dict_remove (r : EntryRef) (d : list (EntryT * EntryRef))
    : list (EntryT * EntryRef) :=
  filter (fun kr => negb (Nat.eqb (snd kr) r)) d.

Definition set_refCount (n : nat) (e : UniqueStoreEntry) : UniqueStoreEntry :=
  {| _value := _value e; _refCount := n |}.

(** [find(value)] *)
Definition find (v : EntryT) (s : t) : option EntryRef :=
  dict_find v (_dict s).

(** [get(ref)] *)
Definition get (r : EntryRef) (s : t) : option EntryT :=
  option_map _value (nth_error (_store s) r).

Definition refCount (r : EntryRef) (s : t) : nat :=
  match nth_error (_store s) r with
  | Some e => _refCount e
  | None => 0%nat
  end.

(** Modelled from the spec: [add] "looks up value in the Dictionary; if
    found, increments the associated refcount and returns isNew=false;
    otherwise allocates storage via BufferArena, inserts into the
    Dictionary, sets refcount=1, returns isNew=true". *)
Definition add (v : EntryT) (s : t) : t * AddResult :=
  match find v s with
  | Some r =>
    ({| _store :=
          DataStore.update_nth r
            (fun e => set_refCount (S (_refCount e)) e) (_store s);
        _dict := _dict s |},
     {| ref := r; isNew := false |})
  | None =>
    let r := length (_store s) in
    ({| _store := _store s ++ [{| _value := v; _refCount := 1 |}];
        _dict := dict_insert v r (_dict s) |},
     {| ref := r; isNew := true |})
  end.

(** Modelled from the spec: [remove] "decrements refcount; at zero, removes
    the Dictionary entry and frees the buffer slot"; removing a reference
    whose count is already zero is caller misuse and asserted. *)
Definition remove (r : EntryRef) (s : t) : result t :=
  match nth_error (_store s) r with
  | None => AssertionFailed
  | Some e =>
    match _refCount e with
    | O => AssertionFailed
    | S O =>
      Returned {| _store := DataStore.update_nth r (set_refCount 0) (_store s);
                  _dict := dict_remove r (_dict s) |}
    | S n =>
      Returned {| _store := DataStore.update_nth r (set_refCount n) (_store s);
                  _dict := _dict s |}
    end
  end.

(** The reference count of a value: that of its entry, zero when the
    dictionary has none. *)
Definition refCountOf (v : EntryT) (s : t) : nat :=
  match find v s with
  | Some r => refCount r s
  | None => 0%nat
  end.

(** Interleavings of adds and removes. *)
Inductive op : Type :=
| Add (v : EntryT)
| Remove (r : EntryRef).

Fixpoint run (ops : list op) (s : t) : result t :=
  match ops with
  | [] => Returned s
  | Add v :: ops' => run ops' (fst (add v s))
  | Remove r :: ops' =>
    match remove r s with
    | Returned s' => run ops' s'
    | Thrown e => Thrown e
    | AssertionFailed => AssertionFailed
    | Undefined => Undefined
    end
  end.

(** How often a value equal to [v] is added. *)
Fixpoint adds (v : EntryT) (ops : list op) : nat :=
  match ops with
  | [] => 0
  | Add v' :: ops' => (if equal v v' then 1 else 0) + adds v ops'
  | Remove _ :: ops' => adds v ops'
  end.

(** How often the entry of a value equal to [v] is removed; which value a
    reference stands for is read off the store at the time of the call. *)
Fixpoint removes (v : EntryT) (ops : list op) (s : t) : nat :=
  match ops with
  | [] => 0
  | Add v' :: ops' => removes v ops' (fst (add v' s))
  | Remove r :: ops' =>
    match remove r s with
    | Returned s' =>
      (match get r s with
       | Some k => if equal v k then 1 else 0
       | None => 0
       end) + removes v ops' s'
    | _ => 0
    end
  end%nat.

(** The store invariant: the dictionary holds exactly the entries with a
    positive count, under their value, and no two keys are equal. *)
Record wf (s : t) : Prop := {
  wf_dict : forall k r, In (k, r) (_dict s) ->
    exists e, nth_error (_store s) r = Some e /\ _value e = k
              /\ (0 < _refCount e)%nat;
  wf_live : forall r e, nth_error (_store s) r = Some e ->
    (0 < _refCount e)%nat -> In (_value e, r) (_dict s);
  wf_unique : ForallOrdPairs (fun a b => equal (fst a) (fst b) = false)
                (_dict s)
}.

End WithComparator.

Arguments mkEntry {EntryT}.
Arguments _value {EntryT}.
Arguments _refCount {EntryT}.
Arguments mk {EntryT}.
Arguments _store {EntryT}.
Arguments _dict {EntryT}.
Arguments empty {EntryT}.
Arguments Add {EntryT}.
Arguments Remove {EntryT}.
Arguments get {EntryT}.
Arguments refCount {EntryT}.
Arguments equal {EntryT}.
Arguments dict_find {EntryT}.
Arguments dict_insert {EntryT}.
Arguments dict_remove {EntryT}.
Arguments set_refCount {EntryT}.
Arguments find {EntryT}.
Arguments add {EntryT}.
Arguments remove {EntryT}.
Arguments refCountOf {EntryT}.
Arguments run {EntryT}.
Arguments adds {EntryT}.
Arguments removes {EntryT}.
Arguments wf {EntryT}.
Arguments wf_dict {EntryT less s}.
Arguments wf_live {EntryT less s}.
Arguments wf_unique {EntryT less s}.

End UniqueStore.

(** ** Sample instances *)

Module Samples.

(** A buffer type over 16-byte arrays with at most [2^27] of them, that is
    an offset range of [2^31]. *)
Definition bufferType (activeUsedElems deadElems minSizeNeeded : Z)
    : EnumBufferType.t :=
  {| EnumBufferType._arraySize := 16;
     EnumBufferType._minArrays := 2 ^ 27;
     EnumBufferType._maxArrays := 2 ^ 27;
     EnumBufferType._activeUsedElems := activeUsedElems;
     EnumBufferType._lastUsedElems := None;
     EnumBufferType._minSizeNeeded := minSizeNeeded;
     EnumBufferType._deadElems := deadElems;
     EnumBufferType._pendingCompact := false;
     EnumBufferType._wantCompact := false |}.

(** The first buffer keeps one array in reserve. *)
Definition reservedElements (bt : EnumBufferType.t) (bufferId : Z) : Z :=
  if bufferId =? 0 then EnumBufferType._arraySize bt else 0.

(** An index of 27 offset bits over 16-byte units and four buffers. *)
Definition layout : EnumStoreBase.IndexLayout :=
  {| EnumStoreBase.alignment := 16;
     EnumStoreBase.offsetSize := 2 ^ 31;
     EnumStoreBase.numBuffers := 4;
     EnumStoreBase.TYPE_ID := 0 |}.

(** An enum store of 4-byte records: a record needs 16 bytes of buffer
    space, and its index is read off its first byte. *)
Definition virtuals : EnumStoreBase.Virtuals unit :=
  {| EnumStoreBase.deserialize_initSpace := fun src available initSpace =>
       if available <? 4 then (-1, initSpace) else (4, initSpace + 16);
     EnumStoreBase.deserialize_index := fun src available idx1 s =>
       if available <? 4 then (-1, idx1, s)
       else (4, Z.of_N (Byte.to_N (hd x00 src)), s);
     EnumStoreBase.fixupRefCount := fun key refCount s => s;
     EnumStoreBase.freeUnusedEnums := fun movePostingIdx s => s |}.

Definition collaborators : EnumStoreBase.Collaborators unit :=
  {| EnumStoreBase.clearHoldLists := fun ds => ds;
     EnumStoreBase.dropBuffers := fun ds => ds;
     EnumStoreBase.initActiveBuffers := fun ds => ds;
     EnumStoreBase.onReset := fun d => d |}.

Definition buffer (st : DataStore.State) (usedElems deadElems : Z)
    : DataStore.BufferState :=
  {| DataStore._usedElems := usedElems;
     DataStore._allocElems := 1024;
     DataStore._deadElems := deadElems;
     DataStore._state := st;
     DataStore._typeId := 0;
     DataStore._compacting := false |}.

(** Buffer 0 is active with 48 of 160 elements dead, buffer 2 is held. *)
Definition dataStore (second : DataStore.State) : DataStore.t :=
  {| DataStore._states :=
       [buffer DataStore.ACTIVE 160 48; buffer second 0 0;
        buffer DataStore.HOLD 64 64; buffer second 0 0];
     DataStore._activeBufferIds := [0%nat];
     DataStore._holdList :=
       [HoldList.hold (HoldList.HeldBuffer 2) 5;
        HoldList.hold (HoldList.HeldEntry 32) 8;
        HoldList.hold (HoldList.HeldEntry 48) 9];
     DataStore._freed := [] |}.

Definition enumStore (second : DataStore.State) : EnumStoreBase.t unit :=
  {| EnumStoreBase._enumDict :=
       {| Dictionary._tree := [(16, tt); (32, tt); (48, tt)];
          Dictionary._holdList := [HoldList.hold (HoldList.HeldNode 1) 7];
          Dictionary._freed := [] |};
     EnumStoreBase._store := dataStore second;
     EnumStoreBase._type := bufferType 160 0 0;
     EnumStoreBase._toHoldBuffers := [] |}.

(** A comparator on integers that orders by the last decimal digit: 3 and
    13 are equal by it. *)
Definition lessLastDigit (a b : Z) : bool := a mod 10 <? b mod 10.

(** Two records and a truncated third one. *)
Definition twoRecords : list byte :=
  [x10; x00; x00; x00; x20; x00; x00; x00].

Definition truncated : list byte :=
  [x10; x00; x00; x00; x20; x00; x00; x00; x30; x00].

End Samples.

(** ** Further members of the enum store *)

Module EnumStoreResize.

Import EnumStoreBase.

(** What [fallbackResize] calls and this file does not define: the reserve
    of a buffer, kept by the buffer type, and the resize of the data
    store, which sizes the new buffer through the buffer type registered
    with [addType]. *)
Class Resizing : Type := {
  getReservedElements : EnumBufferType.t -> Z -> Z;
  store_fallbackResize :
    EnumBufferType.t -> nat -> Z -> DataStore.t -> DataStore.t
}.

Section Members.

Context {DataType : Type}.
Context {layout : IndexLayout}.
Context {resizing : Resizing}.

(** [EnumStoreBase::fallbackResize] *)
Definition fallbackResize (bytesNeeded : Z) (s : t DataType) : t DataType :=
  let activeBufId := DataStore.getActiveBufferId (_store s) TYPE_ID in
  let reservedElements :=
    getReservedElements (_type s) (Z.of_nat activeBufId) in
  let ty :=
    EnumBufferType.setSizeNeededAndDead bytesNeeded reservedElements
      (_type s) in
  let ty := EnumBufferType.setWantCompact ty in
  {| _enumDict := _enumDict s;
     _store := store_fallbackResize ty activeBufId bytesNeeded (_store s);
     _type := ty;
     _toHoldBuffers := _toHoldBuffers s |}.

End Members.

(** The indices that the calls push onto the index vector, in order. *)
Fixpoint pushed (evs : list event) : list Index :=
  match evs with
  | [] => []
  | EvPushBack i :: evs' => i :: pushed evs'
  | _ :: evs' => pushed evs'
  end.

Definition is_reset (e : event) : bool :=
  match e with
  | EvReset _ => true
  | _ => false
  end.

End EnumStoreResize.

Module MoreSamples.

(** An enum store whose size step reports that it consumed nothing. *)
Definition stalling : EnumStoreBase.Virtuals unit :=
  {| EnumStoreBase.deserialize_initSpace := fun src available initSpace =>
       (0, initSpace);
     EnumStoreBase.deserialize_index := fun src available idx1 s =>
       (0, idx1, s);
     EnumStoreBase.fixupRefCount := fun key refCount s => s;
     EnumStoreBase.freeUnusedEnums := fun movePostingIdx s => s |}.

(** An enum store over a tree that carries a posting index per entry. *)
Definition postings : EnumStoreBase.Virtuals Z :=
  {| EnumStoreBase.deserialize_initSpace := fun src available initSpace =>
       (-1, initSpace);
     EnumStoreBase.deserialize_index := fun src available idx1 s =>
       (-1, idx1, s);
     EnumStoreBase.fixupRefCount := fun key refCount s =>
       {| EnumStoreBase._enumDict := EnumStoreBase._enumDict s;
          EnumStoreBase._store := EnumStoreBase._store s;
          EnumStoreBase._type := EnumStoreBase._type s;
          EnumStoreBase._toHoldBuffers :=
            Z.to_nat (key + refCount) :: EnumStoreBase._toHoldBuffers s |};
     EnumStoreBase.freeUnusedEnums := fun movePostingIdx s => s |}.

Definition postingStore : EnumStoreBase.t Z :=
  {| EnumStoreBase._enumDict :=
       {| Dictionary._tree := []; Dictionary._holdList := [];
          Dictionary._freed := [] |};
     EnumStoreBase._store := Samples.dataStore DataStore.FREE;
     EnumStoreBase._type := Samples.bufferType 160 0 0;
     EnumStoreBase._toHoldBuffers := [] |}.

Definition resizing : EnumStoreResize.Resizing :=
  {| EnumStoreResize.getReservedElements := Samples.reservedElements;
     EnumStoreResize.store_fallbackResize := fun ty bufferId bytes ds => ds |}.

End MoreSamples.

(** * Properties *)

(** ** Machine arithmetic *)

Lemma wrap64_range z : 0 <= wrap64 z < 2 ^ 64.
Proof. unfold wrap64. apply Z.mod_pos_bound. lia. Qed.

Lemma wrap64_small z : 0 <= z < 2 ^ 64 -> wrap64 z = z.
Proof. intros H. unfold wrap64. apply Z.mod_small. exact H. Qed.

Lemma round_to_double_exact q :
  0 <= q < 2 ^ 53 -> round_to_double q = q.
Proof.
  intros [H0 H1]. unfold round_to_double.
  destruct (Z.eq_dec q 0) as [->|Hq]; [reflexivity|].
  assert (Z.log2 q < 53) by (apply Z.log2_lt_pow2; lia).
  destruct (Z.leb_spec (Z.log2 q + 1) 53); [reflexivity|lia].
Qed.

Lemma mul_growRatio_exact n :
  0 <= n -> 3 * n < 2 ^ 53 -> mul_growRatio n = Some (3 * n / 2).
Proof.
  intros H0 H1. unfold mul_growRatio.
  rewrite (round_to_double_exact n) by lia.
  rewrite (round_to_double_exact (3 * n)) by lia.
  assert (3 * n / 2 < 2 ^ 64).
  { apply Z.div_lt_upper_bound; lia. }
  destruct (Z.ltb_spec (3 * n / 2) (2 ^ 64)); [reflexivity|lia].
Qed.

(** ** Buffer sizing *)

Module EnumBufferTypeFacts.

Import EnumBufferType.

Section Sizing.

Variable alignment : Z.
Variable getReservedElements : t -> Z -> Z.

Lemma alignBufferSize_bounds x :
  0 < alignment ->
  x <= alignBufferSize alignment x < x + alignment.
Proof.
  intros Ha. unfold alignBufferSize, Index_align.
  pose proof (Z.div_mod (x + alignment - 1) alignment) as Hdm.
  pose proof (Z.mod_pos_bound (x + alignment - 1) alignment Ha) as Hb.
  nia.
Qed.

Lemma alignBufferSize_multiple x :
  0 < alignment -> alignBufferSize alignment x mod alignment = 0.
Proof.
  intros Ha. unfold alignBufferSize, Index_align. apply Z.mod_mul. lia.
Qed.

Lemma alignBufferSize_rounds_up x :
  0 < alignment ->
  is_rounded_up alignment x (alignBufferSize alignment x).
Proof.
  intros Ha. split; [|split].
  - apply alignBufferSize_bounds; exact Ha.
  - apply alignBufferSize_multiple; exact Ha.
  - intros y' Hle Hmod.
    pose proof (alignBufferSize_bounds x Ha) as [_ Hlt].
    pose proof (alignBufferSize_multiple x Ha) as Hm.
    apply Z.mod_divide in Hmod; [|lia]. destruct Hmod as [k ->].
    apply Z.mod_divide in Hm; [|lia]. destruct Hm as [q Hq].
    rewrite Hq in *.
    assert (q < k + 1) as Hqk.
    { apply (Z.mul_lt_mono_pos_r alignment); lia. }
    apply Z.mul_le_mono_nonneg_r; lia.
Qed.

Lemma Index_align_one : 0 < alignment -> Index_align alignment 1 = alignment.
Proof.
  intros Ha. unfold Index_align.
  replace (1 + alignment - 1) with (1 * alignment) by lia.
  rewrite Z.div_mul by lia. lia.
Qed.

(** The buffer type as constructed has arrays of one alignment unit, and
    its capacity is the offset range when that is a multiple of the unit. *)
Lemma EnumBufferType_capacity (offsetSize : Z) :
  0 < alignment -> offsetSize mod alignment = 0 ->
  let bt := EnumBufferType alignment offsetSize in
  _arraySize bt = alignment
  /\ _maxArrays bt * _arraySize bt = offsetSize
  /\ usedElems bt = 0.
Proof.
  intros Ha Hmod. simpl. rewrite (Index_align_one Ha).
  split; [reflexivity|]. split; [|reflexivity].
  apply Z.mod_divide in Hmod; [|lia]. destruct Hmod as [q ->].
  rewrite Z.div_mul by lia. reflexivity.
Qed.

Lemma eqb_mod_zero a b : a mod b = 0 -> negb (a mod b =? 0) = false.
Proof. intros ->. reflexivity. Qed.

Lemma grown_size_machine (bt : t) (sizeNeeded : Z) :
  0 <= _deadElems bt <= usedElems bt -> usedElems bt < 2 ^ 50 ->
  0 <= sizeNeeded < 2 ^ 50 -> 0 <= _minSizeNeeded bt < 2 ^ 50 ->
  (if usedElems bt =? 0
   then Some (wrap64 (usedElems bt - _deadElems bt
                      + Z.max sizeNeeded (_minSizeNeeded bt)))
   else mul_growRatio (wrap64 (usedElems bt - _deadElems bt
                               + Z.max sizeNeeded (_minSizeNeeded bt))))
  = Some (grown_size bt sizeNeeded)
  /\ 0 <= grown_size bt sizeNeeded < 2 ^ 52.
Proof.
  intros Hd Hu Hs Hm. unfold grown_size.
  set (base := usedElems bt - _deadElems bt
               + Z.max sizeNeeded (_minSizeNeeded bt)).
  assert (0 <= base < 2 ^ 51) as Hbase by (unfold base; lia).
  rewrite (wrap64_small base) by lia.
  destruct (usedElems bt =? 0).
  - split; [reflexivity|lia].
  - rewrite mul_growRatio_exact by lia. split; [reflexivity|].
    split.
    + apply Z.div_pos; lia.
    + apply Z.div_lt_upper_bound; lia.
Qed.

(** C1, as the code has it: when no quantity is near the 64-bit range, the
    size of the new buffer is [(used - dead + max(sizeNeeded,
    minSizeNeeded))], grown by one half unless no element is in use, plus
    the reserved elements, rounded up to the alignment; the call returns
    that size divided by the array size whenever it fits the maximum. *)
Theorem calcArraysToAlloc_target_size
    (bt : t) (bufferId sizeNeeded : Z) (resizing : bool) :
  let wanted := grown_size bt sizeNeeded + getReservedElements bt bufferId in
  let target := alignBufferSize alignment wanted in
  0 < alignment < 2 ^ 50 ->
  _arraySize bt = alignment ->
  usedElems bt mod alignment = 0 ->
  0 <= _deadElems bt <= usedElems bt -> usedElems bt < 2 ^ 50 ->
  0 <= sizeNeeded < 2 ^ 50 -> 0 <= _minSizeNeeded bt < 2 ^ 50 ->
  0 <= getReservedElements bt bufferId < 2 ^ 50 ->
  target <= _maxArrays bt * _arraySize bt ->
  is_rounded_up alignment wanted target /\
  calcArraysToAlloc alignment getReservedElements bt bufferId sizeNeeded
    resizing = Returned (target / _arraySize bt).
Proof.
  intros wanted target Ha Harr Hused Hd Hu Hs Hm Hr Hfit.
  split.
  - apply alignBufferSize_rounds_up. lia.
  - destruct (grown_size_machine bt sizeNeeded Hd Hu Hs Hm) as [Hg Hgb].
    unfold calcArraysToAlloc. rewrite Harr in *.
    rewrite (eqb_mod_zero _ _ Hused). rewrite Hg.
    fold wanted.
    assert (0 <= wanted < 2 ^ 53) as Hw by (unfold wanted; lia).
    rewrite (wrap64_small wanted) by lia. fold target.
    pose proof (alignBufferSize_bounds wanted (proj1 Ha)) as Hb.
    fold target in Hb.
    rewrite (wrap64_small target) by lia.
    pose proof (alignBufferSize_multiple wanted (proj1 Ha)) as Hmul.
    fold target in Hmul. rewrite (eqb_mod_zero _ _ Hmul).
    destruct (Z.leb_spec target (_maxArrays bt * alignment)); [reflexivity|lia].
Qed.

Lemma alignBufferSize_monotone x y :
  0 < alignment -> x <= y ->
  alignBufferSize alignment x <= alignBufferSize alignment y.
Proof.
  intros Ha Hxy. unfold alignBufferSize, Index_align.
  apply Z.mul_le_mono_nonneg_r; [lia|].
  apply Z.div_le_mono; lia.
Qed.

(** Where the growth was applied and amounts to the slack of 1000000 or
    more, the retry size is not above the first size. *)
Lemma retry_size_not_above_first
    (bt : t) (bufferId sizeNeeded first : Z) :
  0 < alignment < 2 ^ 50 ->
  0 <= _deadElems bt <= usedElems bt -> usedElems bt < 2 ^ 50 ->
  0 <= sizeNeeded < 2 ^ 50 -> 0 <= _minSizeNeeded bt < 2 ^ 50 ->
  0 <= getReservedElements bt bufferId < 2 ^ 50 ->
  usedElems bt <> 0 ->
  2000000 <= usedElems bt - _deadElems bt
             + Z.max sizeNeeded (_minSizeNeeded bt) ->
  first_size alignment getReservedElements bt bufferId sizeNeeded
    = Some first ->
  retry_size alignment getReservedElements bt bufferId sizeNeeded <= first.
Proof.
  intros Ha Hd Hu Hs Hm Hr Hused Hbase Hfirst.
  destruct (grown_size_machine bt sizeNeeded Hd Hu Hs Hm) as [Hg Hgb].
  unfold first_size in Hfirst. rewrite Hg in Hfirst.
  injection Hfirst as <-. unfold retry_size.
  set (base := usedElems bt - _deadElems bt
               + Z.max sizeNeeded (_minSizeNeeded bt)) in *.
  set (r := getReservedElements bt bufferId) in *.
  assert (base + 1000000 <= grown_size bt sizeNeeded) as Hgrow.
  { unfold grown_size. fold base.
    destruct (Z.eqb_spec (usedElems bt) 0); [contradiction|].
    apply Z.div_le_lower_bound; lia. }
  assert (0 <= base < 2 ^ 51) as Hb by (unfold base; lia).
  rewrite (wrap64_small (base + r + 1000000)) by lia.
  rewrite (wrap64_small (grown_size bt sizeNeeded + r)) by lia.
  pose proof (alignBufferSize_bounds (base + r + 1000000) (proj1 Ha)).
  pose proof (alignBufferSize_bounds (grown_size bt sizeNeeded + r)
                (proj1 Ha)).
  rewrite !wrap64_small by lia.
  apply alignBufferSize_monotone; lia.
Qed.

(** C2, as the code has it: when the first size exceeds the maximum, the
    size is computed once more as just enough plus a slack of 1000000,
    which need not be below the first size; if that fits, the call
    succeeds (with the maximal array count, and the retry size is then
    below the first one), and if it does not, the call throws and returns
    nothing. *)
Theorem calcArraysToAlloc_retry_once
    (bt : t) (bufferId sizeNeeded : Z) (resizing : bool) (first : Z) :
  let maxSize := _maxArrays bt * _arraySize bt in
  let retry := retry_size alignment getReservedElements bt bufferId
                 sizeNeeded in
  let call := calcArraysToAlloc alignment getReservedElements bt bufferId
                sizeNeeded resizing in
  usedElems bt mod _arraySize bt = 0 ->
  first_size alignment getReservedElements bt bufferId sizeNeeded
    = Some first ->
  first mod _arraySize bt = 0 ->
  retry mod _arraySize bt = 0 ->
  maxSize < first ->
  (retry <= maxSize -> call = Returned (_maxArrays bt) /\ retry < first) /\
  (maxSize < retry ->
   call = Thrown (IllegalStateException retry maxSize) /\
   forall arrays, call <> Returned arrays).
Proof.
  intros maxSize retry call Hused Hfirst Hfm Hrm Hbig.
  assert (call =
          if retry <=? maxSize then Returned (_maxArrays bt)
          else Thrown (IllegalStateException retry maxSize)) as Hcall.
  { unfold call, calcArraysToAlloc.
    rewrite (eqb_mod_zero _ _ Hused).
    unfold first_size in Hfirst.
    destruct (if usedElems bt =? 0 then _ else _) as [g|]; [|discriminate].
    injection Hfirst as Hfirst. rewrite Hfirst.
    rewrite (eqb_mod_zero _ _ Hfm).
    fold maxSize.
    destruct (Z.leb_spec first maxSize); [lia|].
    unfold retry_size in retry. fold retry.
    rewrite (eqb_mod_zero _ _ Hrm). reflexivity. }
  split; intros Hr.
  - destruct (Z.leb_spec retry maxSize); [|lia]. split; [exact Hcall|lia].
  - destruct (Z.leb_spec retry maxSize); [lia|]. split; [exact Hcall|].
    intros arrays Heq. rewrite Hcall in Heq. discriminate.
Qed.

End Sizing.

(** The sizing at work: 160 elements used, 16 of them dead, 100 more
    needed, in the first buffer. *)
Lemma calcArraysToAlloc_target_size_witness :
  calcArraysToAlloc 16 Samples.reservedElements
    (Samples.bufferType 160 16 0) 0 100 false = Returned 24.
Proof.
  apply (calcArraysToAlloc_target_size 16 Samples.reservedElements
           (Samples.bufferType 160 16 0) 0 100 false);
    vm_compute; repeat split; try reflexivity; discriminate.
Defined.

(** The retry at work: growing 1600000016 elements by one half exceeds
    [2^31], the retry size does not. *)
Lemma calcArraysToAlloc_retry_once_witness :
  calcArraysToAlloc 16 Samples.reservedElements
    (Samples.bufferType 1600000000 0 0) 1 16 false = Returned (2 ^ 27)
  /\ 1601000016 < 2400000032.
Proof.
  apply (calcArraysToAlloc_retry_once 16 Samples.reservedElements
           (Samples.bufferType 1600000000 0 0) 1 16 false 2400000032);
    vm_compute; try reflexivity; discriminate.
Defined.

(** C1 as the document words it does not hold: an empty buffer type does
    not grow the request by one half, and the recorded minimum is added to
    the live elements before the growth, not compared with the grown sum. *)
Lemma calcArraysToAlloc_differs_from_documented_size :
  (documented_target_size 16 Samples.reservedElements
     (Samples.bufferType 0 0 0) 1 100 <= 2 ^ 27 * 16 /\
   calcArraysToAlloc 16 Samples.reservedElements
     (Samples.bufferType 0 0 0) 1 100 false
   <> Returned (documented_target_size 16 Samples.reservedElements
                  (Samples.bufferType 0 0 0) 1 100 / 16))
  /\
  (documented_target_size 16 Samples.reservedElements
     (Samples.bufferType 16 0 100) 1 0 <= 2 ^ 27 * 16 /\
   calcArraysToAlloc 16 Samples.reservedElements
     (Samples.bufferType 16 0 100) 1 0 false
   <> Returned (documented_target_size 16 Samples.reservedElements
                  (Samples.bufferType 16 0 100) 1 0 / 16)).
Proof.
  split; split; vm_compute; discriminate.
Qed.

(** C2 as the document words it does not hold: on an empty buffer type
    nothing grows by one half, so the retry size is the first size plus
    the slack, above it and not below; the call throws. *)
Lemma calcArraysToAlloc_retry_not_smaller :
  let bt := Samples.bufferType 0 0 0 in
  first_size 16 Samples.reservedElements bt 0 2147483633 = Some 2147483664
  /\ _maxArrays bt * _arraySize bt < 2147483664
  /\ retry_size 16 Samples.reservedElements bt 0 2147483633 = 2148483664
  /\ ~ (retry_size 16 Samples.reservedElements bt 0 2147483633
        < 2147483664)
  /\ calcArraysToAlloc 16 Samples.reservedElements bt 0 2147483633 false
     = Thrown (IllegalStateException 2148483664 2147483648).
Proof.
  repeat split; try reflexivity. vm_compute. discriminate.
Qed.

Example calcArraysToAlloc_empty_buffer_type :
  calcArraysToAlloc 16 Samples.reservedElements
    (Samples.bufferType 0 0 0) 1 100 false = Returned 7
  /\ documented_target_size 16 Samples.reservedElements
       (Samples.bufferType 0 0 0) 1 100 / 16 = 10.
Proof. split; reflexivity. Qed.

Example calcArraysToAlloc_recorded_minimum :
  calcArraysToAlloc 16 Samples.reservedElements
    (Samples.bufferType 16 0 100) 1 0 false = Returned 11
  /\ documented_target_size 16 Samples.reservedElements
       (Samples.bufferType 16 0 100) 1 0 / 16 = 7.
Proof. split; reflexivity. Qed.

Example calcArraysToAlloc_exhausted :
  calcArraysToAlloc 16 Samples.reservedElements
    (Samples.bufferType 2147483632 0 0) 1 16 false
  = Thrown (IllegalStateException 2148483648 2147483648).
Proof. reflexivity. Qed.

Example round_to_double_ties_to_even :
  round_to_double (2 ^ 53 + 1) = 2 ^ 53
  /\ round_to_double (2 ^ 53 + 3) = 2 ^ 53 + 4
  /\ round_to_double (2 ^ 64 - 1) = 2 ^ 64.
Proof. repeat split; reflexivity. Qed.

End EnumBufferTypeFacts.

(** ** Hold lists *)

Module HoldListFacts.

Import HoldList.

Lemma filter_split {A} (f : A -> bool) (l : list A) :
  Permutation l (filter f l ++ filter (fun x => negb (f x)) l).
Proof.
  induction l as [|x l IH]; simpl.
  - constructor.
  - destruct (f x); simpl.
    + constructor. exact IH.
    + apply Permutation_cons_app. exact IH.
Qed.

(** What [trim] does to one hold list: the entries retired before
    [firstUsed] are [gone] and their resources freed, in the order of the
    list; all others stay on hold; no entry is lost or doubled. *)
Lemma trim_spec (firstUsed : generation_t) (h : t) :
  exists gone,
    fst (trim firstUsed h) = map resourceHandle gone
    /\ (forall e, In e gone <->
                  In e h /\ retiredAtGeneration e < firstUsed)
    /\ (forall e, In e (snd (trim firstUsed h)) <->
                  In e h /\ firstUsed <= retiredAtGeneration e)
    /\ Permutation h (gone ++ snd (trim firstUsed h)).
Proof.
  exists (filter (retired_before firstUsed) h). simpl.
  split; [reflexivity|]. split; [|split].
  - intros e. rewrite filter_In. unfold retired_before.
    rewrite Z.ltb_lt. reflexivity.
  - intros e. rewrite filter_In. unfold retired_before.
    rewrite negb_true_iff, Z.ltb_ge. reflexivity.
  - apply filter_split.
Qed.

End HoldListFacts.

(** ** The data store *)

Module DataStoreFacts.

Import DataStore.

Lemma find_state_None status k l :
  find_state status k l = None <->
  forall b, In b l -> getState b <> status.
Proof.
  revert k. induction l as [|b l IH]; intros k; simpl.
  - split; [intros _ b []|reflexivity].
  - destruct (State_eqb (getState b) status) eqn:E.
    + split; [discriminate|]. intros H. exfalso.
      apply (H b); [now left|].
      destruct (getState b), status; simpl in E; congruence.
    + rewrite IH. split.
      * intros H b' [<-|Hin]; [|now apply H].
        intros Heq. rewrite Heq in E. destruct status; discriminate.
      * intros H b' Hin. apply H. now right.
Qed.

Lemma find_state_Some status k l i :
  find_state status k l = Some i ->
  (k <= i < k + length l)%nat
  /\ getState (nth (i - k) l freeState) = status.
Proof.
  revert k. induction l as [|b l IH]; intros k; simpl; [discriminate|].
  destruct (State_eqb (getState b) status) eqn:E.
  - intros [= <-]. rewrite Nat.sub_diag. split; [lia|].
    destruct (getState b), status; simpl in E; congruence.
  - intros H. apply IH in H. destruct H as [Hr Hs]. split; [lia|].
    replace (i - k)%nat with (S (i - S k)) by lia. exact Hs.
Qed.

Lemma find_state_map status f k l :
  (forall b, getState (f b) = getState b) ->
  find_state status k (map f l) = find_state status k l.
Proof.
  intros Hf. revert k. induction l as [|b l IH]; intros k; simpl.
  - reflexivity.
  - rewrite Hf, IH. reflexivity.
Qed.

Lemma ids_to_compact_In typeId k l i :
  In i (ids_to_compact typeId k l) <->
  (k <= i < k + length l)%nat
  /\ to_compact typeId (nth (i - k) l freeState) = true.
Proof.
  revert k. induction l as [|b l IH]; intros k; simpl.
  - split; [intros []|lia].
  - assert (In i (ids_to_compact typeId (S k) l) <->
            (k < i < S (k + length l))%nat
            /\ to_compact typeId
                 (match (i - k)%nat with O => b | S m => nth m l freeState end)
               = true) as Htail.
    { rewrite IH. split; intros [Hr Hc]; (split; [lia|]).
      - replace (i - k)%nat with (S (i - S k)) by lia. exact Hc.
      - replace (i - k)%nat with (S (i - S k)) in Hc by lia. exact Hc. }
    destruct (to_compact typeId b) eqn:E; simpl; rewrite Htail.
    + split.
      * intros [<-|[Hr Hc]].
        -- rewrite Nat.sub_diag. split; [lia|exact E].
        -- split; [lia|exact Hc].
      * intros [Hr Hc]. destruct (Nat.eq_dec k i); [now left|right].
        split; [lia|exact Hc].
    + split.
      * intros [Hr Hc]. split; [lia|exact Hc].
      * intros [Hr Hc]. split; [|exact Hc].
        destruct (Nat.eq_dec k i) as [->|]; [|lia].
        rewrite Nat.sub_diag in Hc. congruence.
Qed.

Lemma nth_update_nth {A} (f : A -> A) (d : A) n m (l : list A) :
  nth m (update_nth n f l) d =
  if Nat.eqb n m then
    if Nat.ltb m (length l) then f (nth m l d) else d
  else nth m l d.
Proof.
  revert n m. induction l as [|x l IH]; intros n m; simpl.
  - destruct n, m; simpl; try reflexivity.
    destruct (Nat.eqb n m); reflexivity.
  - destruct n, m; simpl; try reflexivity.
    rewrite IH. reflexivity.
Qed.

Lemma length_update_nth {A} (f : A -> A) n (l : list A) :
  length (update_nth n f l) = length l.
Proof.
  revert n. induction l as [|x l IH]; intros [|n]; simpl; auto.
Qed.

End DataStoreFacts.

(** ** The enum store *)

Module EnumStoreBaseFacts.

Import EnumStoreBase.

Section Members.

Context {DataType : Type}.
Context {layout : IndexLayout}.
Context {virtuals : Virtuals DataType}.
Context {collaborators : Collaborators DataType}.
Variable defaultData : DataType.

Abbreviation store := (t DataType).

(** C3: [trimHoldLists firstUsed] frees, in the hold list of the dictionary
    and in that of the data store, exactly the entries retired at a
    generation below [firstUsed]; an entry retired at [firstUsed] or later
    stays on hold and is not freed. *)
Theorem trimHoldLists_frees_exactly_older
    (firstUsed : HoldList.generation_t) (s : store) :
  let s' := trimHoldLists firstUsed s in
  (exists gone,
     Dictionary._freed (_enumDict s')
       = Dictionary._freed (_enumDict s)
         ++ map HoldList.resourceHandle gone
     /\ (forall e, In e gone <->
           In e (Dictionary._holdList (_enumDict s))
           /\ HoldList.retiredAtGeneration e < firstUsed)
     /\ (forall e, In e (Dictionary._holdList (_enumDict s')) <->
           In e (Dictionary._holdList (_enumDict s))
           /\ firstUsed <= HoldList.retiredAtGeneration e)
     /\ Permutation (Dictionary._holdList (_enumDict s))
          (gone ++ Dictionary._holdList (_enumDict s')))
  /\
  (exists gone,
     DataStore._freed (_store s')
       = DataStore._freed (_store s) ++ map HoldList.resourceHandle gone
     /\ (forall e, In e gone <->
           In e (DataStore._holdList (_store s))
           /\ HoldList.retiredAtGeneration e < firstUsed)
     /\ (forall e, In e (DataStore._holdList (_store s')) <->
           In e (DataStore._holdList (_store s))
           /\ firstUsed <= HoldList.retiredAtGeneration e)
     /\ Permutation (DataStore._holdList (_store s))
          (gone ++ DataStore._holdList (_store s'))).
Proof.
  intros s'. split.
  - destruct (HoldListFacts.trim_spec firstUsed
                (Dictionary._holdList (_enumDict s)))
      as (gone & Hfreed & Hgone & Hkept & Hperm).
    exists gone. subst s'.
    unfold trimHoldLists, Dictionary.trim_hold_lists, HoldList.trim in *.
    simpl in *. rewrite Hfreed.
    split; [reflexivity|]. split; [exact Hgone|].
    split; [exact Hkept|exact Hperm].
  - destruct (HoldListFacts.trim_spec firstUsed
                (DataStore._holdList (_store s)))
      as (gone & Hfreed & Hgone & Hkept & Hperm).
    exists gone. subst s'.
    unfold trimHoldLists, DataStore.trimHoldLists, HoldList.trim in *.
    simpl in *. rewrite Hfreed.
    split; [reflexivity|]. split; [exact Hgone|].
    split; [exact Hkept|exact Hperm].
Qed.

Lemma getBufferIndex_free_None (s : store) :
  (DataStore.getNumBuffers (_store s) <= numBuffers)%nat ->
  getBufferIndex DataStore.FREE s = numBuffers <->
  DataStore.find_state DataStore.FREE 0 (DataStore._states (_store s)) = None.
Proof.
  intros Hn. unfold getBufferIndex.
  destruct (DataStore.find_state _ _ _) as [i|] eqn:E.
  - apply DataStoreFacts.find_state_Some in E. destruct E as [Hr _].
    unfold DataStore.getNumBuffers in Hn.
    split; [intros ->; lia|discriminate].
  - split; reflexivity.
Qed.

Lemma marked_state typeId (b : DataStore.BufferState) :
  DataStore.getState
    (if DataStore.to_compact typeId b then DataStore.setCompacting b else b)
  = DataStore.getState b.
Proof. destruct (DataStore.to_compact typeId b); reflexivity. Qed.

(** C5: [preCompact] returns [false] exactly when no buffer is in the
    [FREE] state, and then changes nothing.  When it returns [true], the
    buffer type has recorded [bytesNeeded] as the size needed and the dead
    element count of the active buffer; the buffers of the type that were
    taking allocations are the buffers to hold and are marked as being
    compacted; and a buffer that was free is now the active one. *)
Theorem preCompact_spec (bytesNeeded : Z) (s : store) :
  let activeBuf :=
    DataStore.getBufferState (_store s)
      (DataStore.getActiveBufferId (_store s) TYPE_ID) in
  let s' := snd (preCompact bytesNeeded s) in
  let fresh := DataStore.getActiveBufferId (_store s') TYPE_ID in
  (DataStore.getNumBuffers (_store s) <= numBuffers)%nat ->
  (TYPE_ID < length (DataStore._activeBufferIds (_store s)))%nat ->
  (fst (preCompact bytesNeeded s) = false <->
   forall i, (i < DataStore.getNumBuffers (_store s))%nat ->
     DataStore.getState (DataStore.getBufferState (_store s) i)
     <> DataStore.FREE)
  /\ (fst (preCompact bytesNeeded s) = false -> s' = s)
  /\ (fst (preCompact bytesNeeded s) = true ->
      EnumBufferType._minSizeNeeded (_type s') = bytesNeeded
      /\ EnumBufferType._deadElems (_type s')
         = DataStore.getDeadElems activeBuf
      /\ (forall i, In i (_toHoldBuffers s') <->
            (i < DataStore.getNumBuffers (_store s))%nat
            /\ DataStore.to_compact TYPE_ID
                 (DataStore.getBufferState (_store s) i) = true)
      /\ (forall i, In i (_toHoldBuffers s') ->
            DataStore._compacting (DataStore.getBufferState (_store s') i)
            = true)
      /\ DataStore.getState (DataStore.getBufferState (_store s) fresh)
         = DataStore.FREE
      /\ DataStore.getState (DataStore.getBufferState (_store s') fresh)
         = DataStore.ACTIVE).
Proof.
  intros activeBuf s' fresh Hn Hty.
  pose proof (getBufferIndex_free_None s Hn) as Hidx.
  assert (forall i, In i (DataStore.ids_to_compact TYPE_ID 0
                            (DataStore._states (_store s))) <->
            (i < DataStore.getNumBuffers (_store s))%nat
            /\ DataStore.to_compact TYPE_ID
                 (DataStore.getBufferState (_store s) i) = true) as Hids.
  { intros i. rewrite DataStoreFacts.ids_to_compact_In.
    unfold DataStore.getNumBuffers, DataStore.getBufferState.
    rewrite Nat.sub_0_r. simpl. split; intros [Hr Hc]; (split; [lia|exact Hc]). }
  subst s' fresh. unfold preCompact in *.
  destruct (Nat.eqb_spec (getBufferIndex DataStore.FREE s) numBuffers)
    as [Heq|Hne].
  - (* no free buffer *)
    simpl. apply Hidx in Heq.
    split; [|split; [reflexivity|discriminate]].
    split; [|reflexivity]. intros _ i Hi.
    rewrite DataStoreFacts.find_state_None in Heq. apply Heq.
    unfold DataStore.getBufferState. apply nth_In. exact Hi.
  - (* a free buffer exists *)
    assert (DataStore.find_state DataStore.FREE 0
              (DataStore._states (_store s)) <> None) as Hsome.
    { intros H. apply Hne. apply Hidx. exact H. }
    destruct (DataStore.find_state DataStore.FREE 0
                (DataStore._states (_store s))) as [f|] eqn:Ef;
      [clear Hsome|congruence].
    pose proof (DataStoreFacts.find_state_Some _ _ _ _ Ef) as [Hfr Hfs].
    rewrite Nat.sub_0_r in Hfs. simpl in Hfr.
    unfold DataStore.startCompact.
    rewrite (DataStoreFacts.find_state_map DataStore.FREE _ 0
               (DataStore._states (_store s)) (marked_state TYPE_ID)).
    rewrite Ef. simpl.
    split; [|split; [discriminate|]].
    + split; [discriminate|]. intros H. exfalso.
      apply (H f); [unfold DataStore.getNumBuffers; lia|exact Hfs].
    + intros _.
      assert (DataStore.getActiveBufferId
                {| DataStore._states :=
                     DataStore.update_nth f (DataStore.onActive TYPE_ID)
                       (map (fun b => if DataStore.to_compact TYPE_ID b
                                      then DataStore.setCompacting b else b)
                            (DataStore._states (_store s)));
                   DataStore._activeBufferIds :=
                     DataStore.update_nth TYPE_ID (fun _ => f)
                       (DataStore._activeBufferIds (_store s));
                   DataStore._holdList := DataStore._holdList (_store s);
                   DataStore._freed := DataStore._freed (_store s) |}
                TYPE_ID = f) as Hfresh.
      { unfold DataStore.getActiveBufferId. simpl.
        rewrite DataStoreFacts.nth_update_nth, Nat.eqb_refl.
        apply Nat.ltb_lt in Hty. rewrite Hty. reflexivity. }
      rewrite Hfresh.
      split; [reflexivity|]. split; [reflexivity|].
      split; [exact Hids|]. split; [|split].
      * intros i Hi. apply Hids in Hi. destruct Hi as [Hi Hc].
        unfold DataStore.getBufferState in *. simpl.
        rewrite DataStoreFacts.nth_update_nth.
        destruct (Nat.eqb_spec f i) as [->|Hfi].
        -- exfalso. unfold DataStore.to_compact in Hc.
           unfold DataStore.getState in Hfs. rewrite Hfs in Hc.
           discriminate.
        -- set (g := fun b => if DataStore.to_compact TYPE_ID b
                              then DataStore.setCompacting b else b).
           rewrite (nth_indep (map g _) DataStore.freeState
                      (g DataStore.freeState))
             by (rewrite length_map; exact Hi).
           rewrite map_nth. unfold g. rewrite Hc. reflexivity.
      * exact Hfs.
      * unfold DataStore.getBufferState. simpl.
        rewrite DataStoreFacts.nth_update_nth, Nat.eqb_refl.
        rewrite length_map.
        assert (Nat.ltb f (length (DataStore._states (_store s))) = true)
          as -> by (apply Nat.ltb_lt; lia).
        reflexivity.
Qed.

(** C9: the address-space usage is the used element count of the active
    buffer, its dead element count, and the size of the offset range as the
    limit; that limit is the capacity, in elements, of a buffer of the
    type as the store constructs it. *)
Theorem getAddressSpaceUsage_triple (s : store) :
  let activeState :=
    DataStore.getBufferState (_store s)
      (DataStore.getActiveBufferId (_store s) TYPE_ID) in
  let bt := EnumBufferType.EnumBufferType alignment offsetSize in
  _used (getAddressSpaceUsage s) = DataStore._usedElems activeState
  /\ _dead (getAddressSpaceUsage s) = DataStore._deadElems activeState
  /\ _limit (getAddressSpaceUsage s) = offsetSize
  /\ (0 < alignment -> offsetSize mod alignment = 0 ->
      _limit (getAddressSpaceUsage s)
      = EnumBufferType._maxArrays bt * EnumBufferType._arraySize bt).
Proof.
  intros activeState bt. unfold getAddressSpaceUsage. simpl.
  repeat split. intros Ha Hmod.
  destruct (EnumBufferTypeFacts.EnumBufferType_capacity alignment offsetSize
              Ha Hmod) as (_ & Hcap & _).
  symmetry. exact Hcap.
Qed.

Lemma fixup_loop_spec (hist : list Z) (tree : list (Index * DataType))
    (s : store) :
  snd (snd (fixup_loop hist tree s)) = fixup_events tree hist
  /\ ((length hist <= length tree)%nat ->
      fst (fixup_loop hist tree s) = Returned (skipn (length hist) tree)
      /\ fst (snd (fixup_loop hist tree s)) = apply_history tree hist s)
  /\ ((length tree < length hist)%nat ->
      fst (fixup_loop hist tree s) = AssertionFailed).
Proof.
  revert tree s. induction hist as [|rc hist IH]; intros tree s.
  - simpl. unfold fixup_events, apply_history.
    destruct tree; simpl; repeat split; try reflexivity; lia.
  - destruct tree as [|[key d] tree]; simpl.
    + repeat split; try reflexivity; lia.
    + specialize (IH tree (fixupRefCount key rc s)).
      destruct (fixup_loop hist tree (fixupRefCount key rc s))
        as [r [s' evs]].
      simpl in *. destruct IH as (Hevs & Hle & Hlt).
      unfold fixup_events in *. simpl. rewrite Hevs.
      split; [reflexivity|]. split; intros H.
      * apply Hle. lia.
      * apply Hlt. lia.
Qed.

(** C8, as the code has it: for a history that is not empty,
    [fixupRefCounts] goes over tree and history side by side, gives each
    entry its count, and returns only if both end together; it fails an
    assertion when the tree ends first and when entries of the tree are
    left over, and then does not run the clean-up pass. *)
Theorem fixupRefCounts_lockstep (hist : list Z)
    (tree : list (Index * DataType)) (s : store) :
  hist <> [] ->
  let run := fixupRefCounts hist tree s in
  (fst run = Returned tt <-> length tree = length hist)
  /\ (fst run = AssertionFailed <-> length tree <> length hist)
  /\ snd (snd run)
     = EvTreeBegin :: fixup_events tree hist
       ++ (if Nat.eqb (length tree) (length hist)
           then [EvFreeUnusedEnums false] else [])
  /\ (fst run = Returned tt ->
      fst (snd run) = freeUnusedEnums false (apply_history tree hist s)).
Proof.
  intros Hne run. subst run.
  destruct hist as [|rc hist]; [congruence|clear Hne].
  unfold fixupRefCounts.
  pose proof (fixup_loop_spec (rc :: hist) tree s) as (Hevs & Hle & Hlt).
  destruct (fixup_loop (rc :: hist) tree s) as [r [s' evs]].
  simpl fst in *. simpl snd in *. subst evs.
  destruct (Nat.lt_ge_cases (length tree) (length (rc :: hist))) as [Hc|Hc].
  - (* the tree ends first *)
    rewrite (Hlt Hc). simpl fst. simpl snd.
    assert (Nat.eqb (length tree) (length (rc :: hist)) = false) as ->
      by (apply Nat.eqb_neq; lia).
    rewrite app_nil_r.
    repeat split; try reflexivity; try discriminate; intros; lia.
  - destruct (Hle Hc) as [Hr Hs]. rewrite Hr.
    destruct (skipn (length (rc :: hist)) tree) as [|x rest] eqn:Eskip.
    + (* both end together *)
      assert (length tree = length (rc :: hist)) as Hlen.
      { pose proof (length_skipn (length (rc :: hist)) tree) as Hl.
        rewrite Eskip in Hl. simpl length in Hl at 1. lia. }
      simpl fst. simpl snd. rewrite Hlen, Nat.eqb_refl.
      repeat split; try reflexivity; try discriminate;
        try (intros; congruence).
    + (* entries of the tree are left over *)
      assert (length tree <> length (rc :: hist)) as Hlen.
      { pose proof (length_skipn (length (rc :: hist)) tree) as Hl.
        rewrite Eskip in Hl. simpl length in Hl at 1. lia. }
      simpl fst. simpl snd.
      apply Nat.eqb_neq in Hlen as Hneq. rewrite Hneq, app_nil_r.
      repeat split; try reflexivity; try discriminate;
        intros; congruence.
Qed.

(** C10: with an empty history [fixupRefCounts] returns at once, whatever
    the tree holds: the store is as before and no call is made, neither
    the begin of the tree, nor a count fix-up, nor the clean-up pass. *)
Theorem fixupRefCounts_empty_history (tree : list (Index * DataType))
    (s : store) :
  fixupRefCounts [] tree s = (Returned tt, (s, [])).
Proof. reflexivity. Qed.

(** *** Bulk load: where a negative size can stand *)

Lemma is_negative_parsed (e : event) :
  is_negative e = true <-> exists sz, parsed_size e = Some sz /\ sz < 0.
Proof.
  destruct e; simpl; try (split; [discriminate|intros (sz & H & _); discriminate]).
  - rewrite Z.ltb_lt. split; [intros H; eauto|intros (sz' & [= <-] & H); exact H].
  - rewrite Z.ltb_lt. split; [intros H; eauto|intros (sz' & [= <-] & H); exact H].
Qed.

Lemma none_negative_no_split (evs before after : list event) (e : event) :
  none_negative evs -> evs = before ++ e :: after ->
  is_negative e = true -> False.
Proof.
  intros Hn -> He. unfold none_negative in Hn.
  apply Forall_elt in Hn. congruence.
Qed.

Lemma ends_negative_split (sz : Z) (evs before after : list event)
    (e : event) :
  ends_negative sz evs -> evs = before ++ e :: after ->
  is_negative e = true -> after = [] /\ parsed_size e = Some sz.
Proof.
  intros (pre & last & -> & Hsz & Hneg & Hpre) Heq He.
  revert before Heq. induction pre as [|x pre IH]; intros before Heq.
  - destruct before as [|b before]; simpl in Heq.
    + injection Heq as <- <-. split; [reflexivity|exact Hsz].
    + injection Heq as _ Heq. destruct before; discriminate.
  - inversion Hpre as [|? ? Hx Hpre']; subst.
    destruct before as [|b before]; simpl in Heq.
    + injection Heq as <- _. congruence.
    + injection Heq as _ Heq. apply (IH Hpre' before Heq).
Qed.

Lemma ends_negative_app (sz : Z) (pre evs : list event) :
  none_negative pre -> ends_negative sz evs -> ends_negative sz (pre ++ evs).
Proof.
  intros Hp (pre' & last & -> & Hsz & Hneg & Hpre').
  exists (pre ++ pre'), last. rewrite app_assoc.
  split; [reflexivity|]. split; [exact Hsz|]. split; [exact Hneg|].
  apply Forall_app. split; assumption.
Qed.

Lemma size_pass_events fuel src p left initSpace :
  match fst (size_pass fuel src p left initSpace) with
  | PassReturn sz =>
      ends_negative sz (snd (size_pass fuel src p left initSpace))
  | _ => none_negative (snd (size_pass fuel src p left initSpace))
  end.
Proof.
  revert p left initSpace.
  induction fuel as [|fuel IH]; intros p left initSpace; simpl.
  - destruct (0 <? left); simpl; constructor.
  - destruct (0 <? left); simpl; [|constructor].
    destruct (deserialize_initSpace _ left initSpace) as [sz initSpace'].
    destruct (Z.ltb_spec sz 0) as [Hneg|Hpos]; simpl.
    + exists [], (EvDeserializeSize p left sz). repeat split; auto.
    + specialize (IH (p + sz) (wrap64 (left - sz)) initSpace').
      destruct (size_pass fuel src (p + sz) (wrap64 (left - sz)) initSpace')
        as [r evs]. simpl in *.
      assert (is_negative (EvDeserializeSize p left sz) = false) as Hev
        by (simpl; apply Z.ltb_ge; lia).
      destruct r.
      * constructor; assumption.
      * apply (ends_negative_app sz0 [_] evs); [|exact IH].
        constructor; [exact Hev|constructor].
      * constructor; assumption.
Qed.

Lemma index_pass_calls fuel src p left idx1 idx (s : store) :
  match fst (index_pass fuel src p left idx1 idx s) with
  | PassReturn sz =>
      ends_negative sz (snd (snd (index_pass fuel src p left idx1 idx s)))
  | _ => none_negative (snd (snd (index_pass fuel src p left idx1 idx s)))
  end.
Proof.
  revert p left idx1 idx s.
  induction fuel as [|fuel IH]; intros p left idx1 idx s; simpl.
  - destruct (0 <? left); simpl; constructor.
  - destruct (0 <? left); simpl; [|constructor].
    destruct (deserialize_index _ left idx1 s) as [[sz idx1'] s'].
    destruct (Z.ltb_spec sz 0) as [Hneg|Hpos]; simpl.
    + exists [], (EvDeserializeIndex p left sz). repeat split; auto.
    + specialize (IH (p + sz) (wrap64 (left - sz)) idx1' (idx ++ [idx1']) s').
      destruct (index_pass fuel src (p + sz) (wrap64 (left - sz)) idx1'
                  (idx ++ [idx1']) s') as [r [[idx' s''] evs]].
      simpl in *.
      assert (is_negative (EvDeserializeIndex p left sz) = false) as Hev
        by (simpl; apply Z.ltb_ge; lia).
      destruct r.
      * constructor; [exact Hev|]. constructor; [reflexivity|exact IH].
      * apply (ends_negative_app sz0 [_; _] evs); [|exact IH].
        constructor; [exact Hev|]. constructor; [reflexivity|constructor].
      * constructor; [exact Hev|]. constructor; [reflexivity|exact IH].
Qed.

Lemma deserialize0_calls fuel src available idx (s : store) :
  match fst (deserialize0 fuel src available idx s) with
  | Some sz =>
      (sz < 0 /\
       ends_negative sz (snd (snd (deserialize0 fuel src available idx s))))
      \/ none_negative (snd (snd (deserialize0 fuel src available idx s)))
  | None => none_negative (snd (snd (deserialize0 fuel src available idx s)))
  end.
Proof.
  unfold deserialize0.
  pose proof (size_pass_events fuel src 0 available
                (EnumBufferType.Index_align alignment 1)) as H1.
  destruct (size_pass fuel src 0 available _) as [r1 evs1].
  simpl in H1. destruct r1 as [initSpace|sz|]; simpl.
  - pose proof (index_pass_calls fuel src 0 available 0 idx
                  (reset initSpace s)) as H2.
    destruct (index_pass fuel src 0 available 0 idx (reset initSpace s))
      as [r2 [[idx' s'] evs2]].
    simpl in H2.
    assert (none_negative (evs1 ++ [EvReset initSpace])) as Hpre.
    { apply Forall_app. split; [exact H1|]. constructor; [reflexivity|constructor]. }
    destruct r2 as [left'|sz|]; simpl.
    + right. apply Forall_app. split; [exact H1|].
      constructor; [reflexivity|exact H2].
    + destruct H2 as (pre & e & Heq & Hsz & Hneg & Hp).
      left. split; [exact Hneg|].
      replace (evs1 ++ EvReset initSpace :: evs2)
        with ((evs1 ++ [EvReset initSpace]) ++ evs2)
        by (rewrite <- app_assoc; reflexivity).
      apply ends_negative_app; [exact Hpre|].
      exists pre, e. auto.
    + apply Forall_app. split; [exact H1|].
      constructor; [reflexivity|exact H2].
  - destruct H1 as (pre & e & Heq & Hsz & Hneg & Hp).
    left. split; [exact Hneg|]. exists pre, e. auto.
  - exact H1.
Qed.

Lemma size_pass_no_builder fuel src p left initSpace :
  Forall (fun e => is_builder_call e = false)
    (snd (size_pass fuel src p left initSpace)).
Proof.
  revert p left initSpace.
  induction fuel as [|fuel IH]; intros p left initSpace; simpl.
  - destruct (0 <? left); constructor.
  - destruct (0 <? left); [|constructor].
    destruct (deserialize_initSpace _ left initSpace) as [sz initSpace'].
    destruct (sz <? 0); simpl.
    + constructor; [reflexivity|constructor].
    + specialize (IH (p + sz) (wrap64 (left - sz)) initSpace').
      destruct (size_pass fuel src (p + sz) (wrap64 (left - sz)) initSpace').
      simpl in *. constructor; [reflexivity|exact IH].
Qed.

Lemma index_pass_no_builder fuel src p left idx1 idx (s : store) :
  Forall (fun e => is_builder_call e = false)
    (snd (snd (index_pass fuel src p left idx1 idx s))).
Proof.
  revert p left idx1 idx s.
  induction fuel as [|fuel IH]; intros p left idx1 idx s; simpl.
  - destruct (0 <? left); constructor.
  - destruct (0 <? left); [|constructor].
    destruct (deserialize_index _ left idx1 s) as [[sz idx1'] s'].
    destruct (sz <? 0); simpl.
    + constructor; [reflexivity|constructor].
    + specialize (IH (p + sz) (wrap64 (left - sz)) idx1' (idx ++ [idx1']) s').
      destruct (index_pass fuel src (p + sz) (wrap64 (left - sz)) idx1'
                  (idx ++ [idx1']) s') as [r [[idx' s''] evs]].
      simpl in *.
      constructor; [reflexivity|]. constructor; [reflexivity|exact IH].
Qed.

Lemma deserialize0_no_builder fuel src available idx (s : store) :
  Forall (fun e => is_builder_call e = false)
    (snd (snd (deserialize0 fuel src available idx s))).
Proof.
  unfold deserialize0.
  pose proof (size_pass_no_builder fuel src 0 available
                (EnumBufferType.Index_align alignment 1)) as H1.
  destruct (size_pass fuel src 0 available _) as [r1 evs1].
  simpl in H1. destruct r1 as [initSpace|sz|]; simpl; try exact H1.
  pose proof (index_pass_no_builder fuel src 0 available 0 idx
                (reset initSpace s)) as H2.
  destruct (index_pass fuel src 0 available 0 idx (reset initSpace s))
    as [r2 [[idx' s'] evs2]].
  simpl in H2.
  assert (Forall (fun e => is_builder_call e = false)
            (evs1 ++ EvReset initSpace :: evs2)) as H.
  { apply Forall_app. split; [exact H1|]. constructor; [reflexivity|exact H2]. }
  destruct r2; exact H.
Qed.

(** C7: when a parse step of [deserialize] reports a negative size, that
    step is the last call made, its value is what [deserialize] returns,
    and the tree is not built: it is the tree passed in.  The tree builder
    is called only in a load that returns a size that is not negative. *)
Theorem deserialize_stops_at_negative fuel src available idx
    (tree : list (Index * DataType)) (s : store) :
  let '(ret, (idx', tree', s', evs)) :=
    deserialize defaultData fuel src available idx tree s in
  (forall (before after : list event) (e : event) (sz : Z),
     evs = before ++ e :: after ->
     parsed_size e = Some sz ->
     sz < 0 ->
     ret = Some sz /\ after = [] /\ tree' = tree)
  /\ (forall e, In e evs -> is_builder_call e = true ->
      exists sz, ret = Some sz /\ 0 <= sz).
Proof.
  unfold deserialize.
  pose proof (deserialize0_calls fuel src available idx s) as H0.
  pose proof (deserialize0_no_builder fuel src available idx s) as Hnb.
  destruct (deserialize0 fuel src available idx s) as [ret [[idx' s'] evs]].
  simpl in H0, Hnb.
  assert (forall e, In e evs -> is_builder_call e = true -> False) as Hnb'.
  { intros e Hin He. rewrite Forall_forall in Hnb.
    rewrite (Hnb e Hin) in He. discriminate. }
  assert (forall e,
            is_negative e = true <->
            exists z, parsed_size e = Some z /\ z < 0) as Hneg
    by apply is_negative_parsed.
  destruct ret as [r|].
  - destruct (Z.leb_spec 0 r) as [Hr|Hr].
    + split.
      * intros before after e sz Heq Hsz Hlt. exfalso.
        assert (is_negative e = true) as He by (apply Hneg; eauto).
        destruct H0 as [[Hr' _]|Hnone]; [lia|].
        (* the calls of the tree builder report no size *)
        assert (none_negative
                  (evs ++ map EvBuilderInsert idx' ++ [EvTreeAssign])) as Hall.
        { apply Forall_app. split; [exact Hnone|].
          apply Forall_app. split.
          - apply Forall_forall. intros x Hx. apply in_map_iff in Hx.
            destruct Hx as (i & <- & _). reflexivity.
          - constructor; [reflexivity|constructor]. }
        exact (none_negative_no_split _ before after e Hall Heq He).
      * intros e _ _. exists r. split; [reflexivity|exact Hr].
    + split.
      * intros before after e sz Heq Hsz Hlt.
        assert (is_negative e = true) as He by (apply Hneg; eauto).
        destruct H0 as [[_ Hends]|Hnone].
        -- destruct (ends_negative_split r evs before after e Hends Heq He)
             as [Hafter Hr'].
           split; [congruence|]. split; [exact Hafter|reflexivity].
        -- exfalso.
           exact (none_negative_no_split _ before after e Hnone Heq He).
      * intros e Hin He. exfalso. exact (Hnb' e Hin He).
  - split.
    + intros before after e sz Heq Hsz Hlt. exfalso.
      assert (is_negative e = true) as He by (apply Hneg; eauto).
      exact (none_negative_no_split _ before after e H0 Heq He).
    + intros e Hin He. exfalso. exact (Hnb' e Hin He).
Qed.

(** *** Bulk load: the two passes *)

Section WellBehaved.

(** A parse step that does not fail consumes at least one byte and no more
    than is left. *)
Hypothesis size_step_consumes : forall bytes left initSpace,
  0 < left ->
  let sz := fst (deserialize_initSpace bytes left initSpace) in
  sz < 0 \/ 0 < sz <= left.

Hypothesis index_step_consumes : forall bytes left idx1 (s : store),
  0 < left ->
  let sz := fst (fst (deserialize_index bytes left idx1 s)) in
  sz < 0 \/ 0 < sz <= left.

Lemma size_pass_done fuel src p left initSpace :
  0 <= left < 2 ^ 64 -> (Z.to_nat left <= fuel)%nat ->
  fst (size_pass fuel src p left initSpace) <> PassOutOfFuel
  /\ forall final,
       fst (size_pass fuel src p left initSpace) = PassDone final ->
       exists recs,
         first_pass src p left initSpace recs final
         /\ snd (size_pass fuel src p left initSpace) = map size_event recs.
Proof.
  revert p left initSpace.
  induction fuel as [|fuel IH]; intros p left initSpace Hl Hf; simpl.
  - assert (left = 0) as -> by lia. simpl. split; [discriminate|].
    intros final [= <-]. exists []. split; constructor.
  - destruct (Z.ltb_spec 0 left) as [Hpos|Hz]; simpl.
    + pose proof (size_step_consumes (skipn (Z.to_nat p) src) left initSpace
                    Hpos) as Hsz.
      destruct (deserialize_initSpace (skipn (Z.to_nat p) src) left initSpace)
        as [sz initSpace'] eqn:Estep.
      simpl in Hsz.
      destruct (Z.ltb_spec sz 0) as [Hneg|Hnn]; simpl.
      * split; discriminate.
      * destruct Hsz as [Hsz|Hsz]; [lia|].
        rewrite (wrap64_small (left - sz)) by lia.
        destruct (IH (p + sz) (left - sz) initSpace') as [Hfuel Hdone];
          [lia|lia|].
        destruct (size_pass fuel src (p + sz) (left - sz) initSpace')
          as [r evs]. simpl in *.
        split; [exact Hfuel|]. intros final Hr.
        destruct (Hdone final Hr) as (recs & Hpass & Hevs).
        exists ((p, left, sz) :: recs). split.
        -- econstructor; eauto.
        -- simpl. rewrite Hevs. reflexivity.
    + assert (left = 0) as -> by lia. split; [discriminate|].
      intros final [= <-]. exists []. split; constructor.
Qed.

Lemma index_pass_done fuel src p left idx1 idx (s : store) :
  0 <= left < 2 ^ 64 -> (Z.to_nat left <= fuel)%nat ->
  let run := index_pass fuel src p left idx1 idx s in
  fst run <> PassOutOfFuel
  /\ forall left',
       fst run = PassDone left' ->
       left' = 0
       /\ exists recs,
            second_pass src p left idx1 s recs (snd (fst (snd run)))
            /\ snd (snd run) = flat_map index_events recs
            /\ fst (fst (snd run)) = idx ++ map snd recs.
Proof.
  revert p left idx1 idx s.
  induction fuel as [|fuel IH]; intros p left idx1 idx s Hl Hf; simpl.
  - assert (left = 0) as -> by lia. simpl. split; [discriminate|].
    intros left' [= <-]. split; [reflexivity|]. exists [].
    rewrite app_nil_r. repeat split; constructor.
  - destruct (Z.ltb_spec 0 left) as [Hpos|Hz]; simpl.
    + pose proof (index_step_consumes (skipn (Z.to_nat p) src) left idx1 s
                    Hpos) as Hsz.
      destruct (deserialize_index (skipn (Z.to_nat p) src) left idx1 s)
        as [[sz idx1'] s1] eqn:Estep.
      simpl in Hsz.
      destruct (Z.ltb_spec sz 0) as [Hneg|Hnn]; simpl.
      * split; discriminate.
      * destruct Hsz as [Hsz|Hsz]; [lia|].
        rewrite (wrap64_small (left - sz)) by lia.
        destruct (IH (p + sz) (left - sz) idx1' (idx ++ [idx1']) s1)
          as [Hfuel Hdone]; [lia|lia|].
        destruct (index_pass fuel src (p + sz) (left - sz) idx1'
                    (idx ++ [idx1']) s1) as [r [[idx' s2] evs]].
        simpl in *.
        split; [exact Hfuel|]. intros left' Hr.
        destruct (Hdone left' Hr) as (Hleft & recs & Hpass & Hevs & Hidx).
        split; [exact Hleft|].
        exists (((p, left, sz), idx1') :: recs). split; [|split].
        -- econstructor; eauto.
        -- simpl. rewrite Hevs. reflexivity.
        -- simpl. rewrite Hidx, <- app_assoc. reflexivity.
    + assert (left = 0) as -> by lia. split; [discriminate|].
      intros left' [= <-]. split; [reflexivity|]. exists [].
      rewrite app_nil_r. repeat split; constructor.
Qed.

End WellBehaved.

Lemma passes_same_records src p left initSpace recs1 final idx1 (s : store)
    recs2 s' :
  (forall bytes l i i1 (st : store),
     fst (deserialize_initSpace bytes l i)
     = fst (fst (deserialize_index bytes l i1 st))) ->
  first_pass src p left initSpace recs1 final ->
  second_pass src p left idx1 s recs2 s' ->
  map fst recs2 = recs1.
Proof.
  intros Hagree H1. revert idx1 s recs2 s'.
  induction H1 as [p initSpace
                  |p left initSpace sz initSpace' recs final Hpos Hstep Hsz H1 IH];
    intros idx1 s recs2 s' H2.
  - inversion H2; subst; [reflexivity|lia].
  - inversion H2 as [|? ? ? ? sz2 idx1' s1 recs2' ? Hpos2 Hstep2 Hsz2 H2'];
      subst; [lia|].
    pose proof (Hagree (skipn (Z.to_nat p) src) left initSpace idx1 s) as Ha.
    rewrite Hstep, Hstep2 in Ha. simpl in Ha. subst sz2.
    simpl. f_equal. eapply IH. exact H2'.
Qed.

(** What [reset] leaves behind: the size is recorded as the size needed,
    no element counts as dead, the buffers are dropped and set up anew,
    and the dictionary is reset. *)
Lemma reset_effect (initBufferSize : Z) (s : store) :
  EnumBufferType._minSizeNeeded (_type (reset initBufferSize s))
  = initBufferSize
  /\ EnumBufferType._deadElems (_type (reset initBufferSize s)) = 0
  /\ _store (reset initBufferSize s)
     = initActiveBuffers (dropBuffers (clearHoldLists (_store s)))
  /\ _enumDict (reset initBufferSize s) = onReset (_enumDict s).
Proof. repeat split. Qed.

Lemma size_pass_complete fuel src p left initSpace recs final :
  first_pass src p left initSpace recs final ->
  0 <= left < 2 ^ 64 -> (Z.to_nat left <= fuel)%nat ->
  size_pass fuel src p left initSpace
  = (PassDone final, map size_event recs).
Proof.
  intros H. revert fuel.
  induction H as [p initSpace
                 |p left initSpace sz initSpace' recs final Hpos Hstep Hsz H IH];
    intros fuel Hl Hf.
  - destruct fuel; reflexivity.
  - destruct fuel as [|fuel]; [lia|]. simpl.
    destruct (Z.ltb_spec 0 left); [|lia]. rewrite Hstep.
    destruct (Z.ltb_spec sz 0); [lia|].
    rewrite (wrap64_small (left - sz)) by lia.
    rewrite (IH fuel) by lia. reflexivity.
Qed.

Lemma index_pass_complete fuel src p left idx1 idx (s : store) recs final :
  second_pass src p left idx1 s recs final ->
  0 <= left < 2 ^ 64 -> (Z.to_nat left <= fuel)%nat ->
  index_pass fuel src p left idx1 idx s
  = (PassDone 0, (idx ++ map snd recs, final, flat_map index_events recs)).
Proof.
  intros H. revert fuel idx.
  induction H as [p idx1 s
                 |p left idx1 s sz idx1' s' recs final Hpos Hstep Hsz H IH];
    intros fuel idx Hl Hf.
  - simpl. rewrite app_nil_r. destruct fuel; reflexivity.
  - destruct fuel as [|fuel]; [lia|]. simpl.
    destruct (Z.ltb_spec 0 left); [|lia]. rewrite Hstep.
    destruct (Z.ltb_spec sz 0); [lia|].
    rewrite (wrap64_small (left - sz)) by lia.
    rewrite (IH fuel (idx ++ [idx1'])) by lia.
    rewrite <- app_assoc. reflexivity.
Qed.

(** A load all of whose records parse returns the number of bytes
    available, with the indices of the records and the tree built from
    them. *)
Lemma two_passes_complete fuel src available idx
    (tree : list (Index * DataType)) (s : store)
    recs1 initSpace recs2 final :
  0 <= available < 2 ^ 63 ->
  (Z.to_nat available <= fuel)%nat ->
  first_pass src 0 available (EnumBufferType.Index_align alignment 1)
    recs1 initSpace ->
  second_pass src 0 available 0 (reset initSpace s) recs2 final ->
  deserialize defaultData fuel src available idx tree s
  = (Some available,
     (idx ++ map snd recs2,
      map (fun i => (i, defaultData)) (idx ++ map snd recs2),
      final,
      (map size_event recs1 ++ EvReset initSpace :: flat_map index_events recs2)
      ++ map EvBuilderInsert (idx ++ map snd recs2) ++ [EvTreeAssign])).
Proof.
  intros Hav Hfuel H1 H2. unfold deserialize, deserialize0.
  rewrite (size_pass_complete fuel src 0 available _ recs1 initSpace H1)
    by lia.
  rewrite (index_pass_complete fuel src 0 available 0 idx _ recs2 final H2)
    by lia.
  rewrite Z.sub_0_r, (wrap64_small available) by lia.
  unfold to_ssize.
  destruct (Z.ltb_spec available (2 ^ 63)); [|lia].
  destruct (Z.leb_spec 0 available); [|lia].
  reflexivity.
Qed.

Lemma two_passes_sound fuel src available idx
    (tree : list (Index * DataType)) (s : store) :
  (forall bytes left initSpace,
     0 < left ->
     let sz := fst (deserialize_initSpace bytes left initSpace) in
     sz < 0 \/ 0 < sz <= left) ->
  (forall bytes left idx1 (st : store),
     0 < left ->
     let sz := fst (fst (deserialize_index bytes left idx1 st)) in
     sz < 0 \/ 0 < sz <= left) ->
  0 <= available < 2 ^ 63 ->
  (Z.to_nat available <= fuel)%nat ->
  let '(ret, (idx', tree', s', evs)) :=
    deserialize defaultData fuel src available idx tree s in
  exists sz,
    ret = Some sz
    /\ ((sz < 0 /\ ends_negative sz evs)
        \/ (sz = available /\ none_negative evs))
    /\ (0 <= sz ->
        sz = available
        /\ exists recs1 initSpace recs2,
             first_pass src 0 available
               (EnumBufferType.Index_align alignment 1) recs1 initSpace
             /\ EnumBufferType._minSizeNeeded (_type (reset initSpace s))
                = initSpace
             /\ EnumBufferType._deadElems (_type (reset initSpace s)) = 0
             /\ _store (reset initSpace s)
                = initActiveBuffers
                    (dropBuffers (clearHoldLists (_store s)))
             /\ _enumDict (reset initSpace s) = onReset (_enumDict s)
             /\ second_pass src 0 available 0 (reset initSpace s) recs2 s'
             /\ evs = map size_event recs1
                      ++ EvReset initSpace
                      :: flat_map index_events recs2
                      ++ map EvBuilderInsert idx' ++ [EvTreeAssign]
             /\ idx' = idx ++ map snd recs2
             /\ tree' = map (fun i => (i, defaultData)) idx'
             /\ ((forall bytes l i i1 (st : store),
                    fst (deserialize_initSpace bytes l i)
                    = fst (fst (deserialize_index bytes l i1 st))) ->
                 map fst recs2 = recs1)).
Proof.
  intros Hsize Hindex Hav Hfuel.
  unfold deserialize, deserialize0.
  destruct (size_pass_done Hsize fuel src 0 available
              (EnumBufferType.Index_align alignment 1))
    as [Hfuel1 Hdone1]; [lia|exact Hfuel|].
  pose proof (size_pass_events fuel src 0 available
                (EnumBufferType.Index_align alignment 1)) as Hev1.
  destruct (size_pass fuel src 0 available _) as [r1 evs1].
  simpl in Hfuel1, Hdone1, Hev1.
  destruct r1 as [initSpace|sz1|]; [| |congruence].
  - destruct (Hdone1 initSpace eq_refl) as (recs1 & Hpass1 & Hevs1).
    destruct (index_pass_done Hindex fuel src 0 available 0 idx
                (reset initSpace s)) as [Hfuel2 Hdone2]; [lia|exact Hfuel|].
    pose proof (index_pass_calls fuel src 0 available 0 idx
                  (reset initSpace s)) as Hev2.
    destruct (index_pass fuel src 0 available 0 idx (reset initSpace s))
      as [r2 [[idx' s'] evs2]].
    simpl in Hfuel2, Hdone2, Hev2.
    assert (none_negative (evs1 ++ [EvReset initSpace])) as Hpre.
    { apply Forall_app. split; [exact Hev1|].
      constructor; [reflexivity|constructor]. }
    destruct r2 as [left'|sz2|]; [| |congruence].
    + destruct (Hdone2 left' eq_refl) as (-> & recs2 & Hpass2 & Hevs2 & Hidx).
      rewrite Z.sub_0_r, (wrap64_small available) by lia.
      unfold to_ssize.
      destruct (Z.ltb_spec available (2 ^ 63)); [|lia].
      destruct (Z.leb_spec 0 available); [|lia].
      exists available. split; [reflexivity|]. split.
      * right. split; [reflexivity|].
        apply Forall_app. split.
        -- apply Forall_app. split; [exact Hev1|].
           constructor; [reflexivity|exact Hev2].
        -- apply Forall_app. split.
           ++ apply Forall_forall. intros x Hx. apply in_map_iff in Hx.
              destruct Hx as (i & <- & _). reflexivity.
           ++ constructor; [reflexivity|constructor].
      * intros _. split; [reflexivity|].
        exists recs1, initSpace, recs2.
        destruct (reset_effect initSpace s) as (Hmin & Hdead & Hst & Hdict).
        split; [exact Hpass1|]. split; [exact Hmin|]. split; [exact Hdead|].
        split; [exact Hst|]. split; [exact Hdict|].
        split; [exact Hpass2|].
        split; [|split; [exact Hidx|split; [reflexivity|]]].
        -- rewrite Hevs1, Hevs2, <- app_assoc. reflexivity.
        -- intros Hagree.
           exact (passes_same_records src 0 available _ recs1 initSpace 0
                    (reset initSpace s) recs2 s' Hagree Hpass1 Hpass2).
    + assert (sz2 < 0) as Hneg
        by (destruct Hev2 as (pre & e & _ & _ & Hneg & _); exact Hneg).
      destruct (Z.leb_spec 0 sz2); [lia|].
      exists sz2. split; [reflexivity|]. split; [|lia].
      left. split; [exact Hneg|].
      replace (evs1 ++ EvReset initSpace :: evs2)
        with ((evs1 ++ [EvReset initSpace]) ++ evs2)
        by (rewrite <- app_assoc; reflexivity).
      apply ends_negative_app; [exact Hpre|exact Hev2].
  - assert (sz1 < 0) as Hneg
      by (destruct Hev1 as (pre & e & _ & _ & Hneg & _); exact Hneg).
    destruct (Z.leb_spec 0 sz1); [lia|].
    exists sz1. split; [reflexivity|]. split; [|lia].
    left. split; [exact Hneg|exact Hev1].
Qed.

(** C6: when every parse step consumes input, [deserialize] ends: it
    returns either the negative size of a parse step, its last call, or
    the number of bytes available.  A load that ends with a size that is
    not negative has made exactly two passes over the input, each from its
    first byte to its last: the first only accumulates the buffer size,
    starting from one alignment unit; the store is reset to that size
    (the size is recorded as the size needed, with no dead elements, the
    buffers are dropped and set up anew, the dictionary is reset); the
    second, on the reset store, yields the indices that are appended to
    the index vector; the tree is built from that vector, in its order.
    When the two parse steps agree on the sizes of the records, both
    passes see the same records.  Conversely, whenever the records of the
    input parse in both passes, the load returns the bytes available with
    exactly their indices. *)
Theorem deserialize_two_passes fuel src available idx
    (tree : list (Index * DataType)) (s : store) :
  (forall bytes left initSpace,
     0 < left ->
     let sz := fst (deserialize_initSpace bytes left initSpace) in
     sz < 0 \/ 0 < sz <= left) ->
  (forall bytes left idx1 (st : store),
     0 < left ->
     let sz := fst (fst (deserialize_index bytes left idx1 st)) in
     sz < 0 \/ 0 < sz <= left) ->
  0 <= available < 2 ^ 63 ->
  (Z.to_nat available <= fuel)%nat ->
  let '(ret, (idx', tree', s', evs)) :=
    deserialize defaultData fuel src available idx tree s in
  (exists sz,
    ret = Some sz
    /\ ((sz < 0 /\ ends_negative sz evs)
        \/ (sz = available /\ none_negative evs))
    /\ (0 <= sz ->
        sz = available
        /\ exists recs1 initSpace recs2,
             first_pass src 0 available
               (EnumBufferType.Index_align alignment 1) recs1 initSpace
             /\ EnumBufferType._minSizeNeeded (_type (reset initSpace s))
                = initSpace
             /\ EnumBufferType._deadElems (_type (reset initSpace s)) = 0
             /\ _store (reset initSpace s)
                = initActiveBuffers
                    (dropBuffers (clearHoldLists (_store s)))
             /\ _enumDict (reset initSpace s) = onReset (_enumDict s)
             /\ second_pass src 0 available 0 (reset initSpace s) recs2 s'
             /\ evs = map size_event recs1
                      ++ EvReset initSpace
                      :: flat_map index_events recs2
                      ++ map EvBuilderInsert idx' ++ [EvTreeAssign]
             /\ idx' = idx ++ map snd recs2
             /\ tree' = map (fun i => (i, defaultData)) idx'
             /\ ((forall bytes l i i1 (st : store),
                    fst (deserialize_initSpace bytes l i)
                    = fst (fst (deserialize_index bytes l i1 st))) ->
                 map fst recs2 = recs1)))
  /\ (forall recs1 initSpace recs2 final,
        first_pass src 0 available
          (EnumBufferType.Index_align alignment 1) recs1 initSpace ->
        second_pass src 0 available 0 (reset initSpace s) recs2 final ->
        ret = Some available
        /\ idx' = idx ++ map snd recs2
        /\ s' = final
        /\ tree' = map (fun i => (i, defaultData)) idx').
Proof.
  intros Hsize Hindex Hav Hfuel.
  pose proof (two_passes_sound fuel src available idx tree s
                Hsize Hindex Hav Hfuel) as Hsound.
  pose proof (fun recs1 initSpace recs2 final =>
                two_passes_complete fuel src available idx tree s
                  recs1 initSpace recs2 final Hav Hfuel) as Hcomplete.
  revert Hsound Hcomplete.
  destruct (deserialize defaultData fuel src available idx tree s)
    as [ret [[[idx' tree'] s'] evs]].
  intros Hsound Hcomplete. split; [exact Hsound|].
  intros recs1 initSpace recs2 final H1 H2.
  specialize (Hcomplete recs1 initSpace recs2 final H1 H2).
  injection Hcomplete as -> -> -> -> _. repeat split.
Qed.

End Members.

(** *** Instances *)

(** Compaction begins: buffer 0 is active, buffer 1 is free. *)
Lemma preCompact_spec_witness :
  let s := Samples.enumStore DataStore.FREE in
  let run := preCompact (layout := Samples.layout) 4096 s in
  fst run = true
  /\ EnumBufferType._minSizeNeeded (_type (snd run)) = 4096
  /\ EnumBufferType._deadElems (_type (snd run)) = 48
  /\ DataStore.getActiveBufferId (_store (snd run)) 0 = 1%nat.
Proof.
  intros s run.
  pose proof (preCompact_spec (layout := Samples.layout) 4096 s) as H.
  cbv zeta in H.
  assert (DataStore.getNumBuffers (_store s) <= 4)%nat as Hn
    by (vm_compute; lia).
  assert (0 < length (DataStore._activeBufferIds (_store s)))%nat as Hty
    by (vm_compute; lia).
  destruct (H Hn Hty) as (_ & _ & Htrue).
  destruct (Htrue eq_refl) as (Hmin & Hdead & _).
  split; [reflexivity|]. split; [exact Hmin|]. split; [exact Hdead|].
  reflexivity.
Defined.

Example preCompact_without_free_buffer :
  preCompact (layout := Samples.layout) 4096
    (Samples.enumStore DataStore.HOLD)
  = (false, Samples.enumStore DataStore.HOLD).
Proof. reflexivity. Qed.

Lemma sample_size_step_consumes (bytes : list byte) (left initSpace : Z) :
  0 < left ->
  let sz := fst (deserialize_initSpace (Virtuals := Samples.virtuals)
                   bytes left initSpace) in
  sz < 0 \/ 0 < sz <= left.
Proof.
  intros Hl. simpl. destruct (Z.ltb_spec left 4); simpl; lia.
Defined.

Lemma sample_index_step_consumes (bytes : list byte) (left : Z)
    (idx1 : Index) (st : t unit) :
  0 < left ->
  let sz := fst (fst (deserialize_index (Virtuals := Samples.virtuals)
                        bytes left idx1 st)) in
  sz < 0 \/ 0 < sz <= left.
Proof.
  intros Hl. simpl. destruct (Z.ltb_spec left 4); simpl; lia.
Defined.

(** The limit of the sample store is the capacity of its buffer type. *)
Lemma getAddressSpaceUsage_triple_witness :
  _limit (getAddressSpaceUsage (layout := Samples.layout)
            (Samples.enumStore DataStore.FREE))
  = 2 ^ 27 * 16.
Proof.
  destruct (getAddressSpaceUsage_triple (layout := Samples.layout)
              (Samples.enumStore DataStore.FREE)) as (_ & _ & _ & Hcap).
  apply Hcap; reflexivity.
Defined.

Example getAddressSpaceUsage_of_sample :
  getAddressSpaceUsage (layout := Samples.layout)
    (Samples.enumStore DataStore.FREE)
  = {| _used := 160; _dead := 48; _limit := 2 ^ 31 |}.
Proof. reflexivity. Qed.

(** A load of two records of four bytes. *)
Lemma deserialize_two_passes_witness :
  exists sz,
    fst (deserialize (layout := Samples.layout)
           (virtuals := Samples.virtuals)
           (collaborators := Samples.collaborators)
           tt 8 Samples.twoRecords 8 [] []
           (Samples.enumStore DataStore.FREE)) = Some sz
    /\ sz = 8.
Proof.
  pose proof (deserialize_two_passes (layout := Samples.layout)
                (virtuals := Samples.virtuals)
                (collaborators := Samples.collaborators)
                tt 8 Samples.twoRecords 8 [] []
                (Samples.enumStore DataStore.FREE)
                sample_size_step_consumes sample_index_step_consumes) as H.
  assert (0 <= 8 < 2 ^ 63) as Hav by lia.
  assert (Z.to_nat 8 <= 8)%nat as Hfuel by (simpl; lia).
  specialize (H Hav Hfuel). vm_compute in H.
  destruct H as [(sz & Hret & Hpasses) _].
  exists sz. split; [exact Hret|].
  injection Hret as <-. reflexivity.
Defined.

Example deserialize_two_records :
  let '(ret, (idx, tree, s, evs)) :=
    deserialize (layout := Samples.layout) (virtuals := Samples.virtuals)
      (collaborators := Samples.collaborators)
      tt 8 Samples.twoRecords 8 [] []
      (Samples.enumStore DataStore.FREE) in
  ret = Some 8 /\ idx = [16; 32] /\ tree = [(16, tt); (32, tt)]
  /\ evs = [EvDeserializeSize 0 8 4; EvDeserializeSize 4 4 4; EvReset 48;
            EvDeserializeIndex 0 8 4; EvPushBack 16;
            EvDeserializeIndex 4 4 4; EvPushBack 32;
            EvBuilderInsert 16; EvBuilderInsert 32; EvTreeAssign].
Proof. vm_compute. repeat split. Qed.

(** A load whose third record is cut short. *)
Lemma deserialize_stops_at_negative_witness :
  fst (deserialize (layout := Samples.layout)
         (virtuals := Samples.virtuals)
         (collaborators := Samples.collaborators)
         tt 10 Samples.truncated 10 [] [(16, tt)]
         (Samples.enumStore DataStore.FREE)) = Some (-1).
Proof.
  pose proof (deserialize_stops_at_negative (layout := Samples.layout)
                (virtuals := Samples.virtuals)
                (collaborators := Samples.collaborators)
                tt 10 Samples.truncated 10 [] [(16, tt)]
                (Samples.enumStore DataStore.FREE)) as H.
  vm_compute in H. destruct H as [Hstop _].
  destruct (Hstop [EvDeserializeSize 0 10 4; EvDeserializeSize 4 6 4] []
              (EvDeserializeSize 8 2 (-1)) (-1) eq_refl eq_refl eq_refl)
    as (Hret & _).
  vm_compute. exact Hret.
Defined.

Example deserialize_truncated :
  deserialize (layout := Samples.layout) (virtuals := Samples.virtuals)
    (collaborators := Samples.collaborators)
    tt 10 Samples.truncated 10 [] [(16, tt)]
    (Samples.enumStore DataStore.FREE)
  = (Some (-1),
     ([], [(16, tt)], Samples.enumStore DataStore.FREE,
      [EvDeserializeSize 0 10 4; EvDeserializeSize 4 6 4;
       EvDeserializeSize 8 2 (-1)])).
Proof. reflexivity. Qed.

(** A fix-up of three entries with three counts. *)
Lemma fixupRefCounts_lockstep_witness :
  fst (fixupRefCounts (virtuals := Samples.virtuals) [2; 0; 5]
         [(16, tt); (32, tt); (48, tt)]
         (Samples.enumStore DataStore.FREE)) = Returned tt.
Proof.
  pose proof (fixupRefCounts_lockstep (virtuals := Samples.virtuals)
                [2; 0; 5] [(16, tt); (32, tt); (48, tt)]
                (Samples.enumStore DataStore.FREE)) as H.
  assert ([2; 0; 5] <> []) as Hne by discriminate.
  destruct (H Hne) as (Hret & _).
  apply Hret. reflexivity.
Defined.

Example fixupRefCounts_history_too_long :
  fixupRefCounts (virtuals := Samples.virtuals) [2; 0; 5]
    [(16, tt); (32, tt)] (Samples.enumStore DataStore.FREE)
  = (AssertionFailed,
     (Samples.enumStore DataStore.FREE,
      [EvTreeBegin; EvFixupRefCount 16 2; EvFixupRefCount 32 0])).
Proof. reflexivity. Qed.

Example fixupRefCounts_tree_too_long :
  fixupRefCounts (virtuals := Samples.virtuals) [2]
    [(16, tt); (32, tt)] (Samples.enumStore DataStore.FREE)
  = (AssertionFailed,
     (Samples.enumStore DataStore.FREE,
      [EvTreeBegin; EvFixupRefCount 16 2])).
Proof. reflexivity. Qed.

(** C8 as the document words it does not hold for the empty history: the
    tree has an entry, so the iterator is valid where the history ends,
    and yet the call returns and no assertion fails. *)
Lemma fixupRefCounts_returns_with_tree_left_over :
  ~ (forall (hist : list Z) (tree : list (Index * unit)),
       fst (fixupRefCounts (virtuals := Samples.virtuals) hist tree
              (Samples.enumStore DataStore.FREE)) = Returned tt ->
       length tree = length hist).
Proof.
  intros H. specialize (H [] [(16, tt)] eq_refl). discriminate.
Qed.

End EnumStoreBaseFacts.

(** ** The unique store *)

Module UniqueStoreFacts.

Import UniqueStore.

Lemma nth_error_update_nth {A} (f : A -> A) n m (l : list A) :
  nth_error (DataStore.update_nth n f l) m =
  if Nat.eqb n m then option_map f (nth_error l m) else nth_error l m.
Proof.
  revert n m. induction l as [|x l IH]; intros n m; simpl.
  - destruct n, m; simpl; try reflexivity.
    destruct (Nat.eqb n m); reflexivity.
  - destruct n, m; simpl; try reflexivity. apply IH.
Qed.

Lemma ForallOrdPairs_filter {A} (R : A -> A -> Prop) (f : A -> bool) l :
  ForallOrdPairs R l -> ForallOrdPairs R (filter f l).
Proof.
  induction 1 as [|a l Ha Hl IH]; simpl.
  - constructor.
  - destruct (f a); [|exact IH]. constructor; [|exact IH].
    apply Forall_forall. intros x Hx. apply filter_In in Hx.
    rewrite Forall_forall in Ha. apply Ha. tauto.
Qed.

Section WithComparator.

Variable EntryT : Type.
Variable less : EntryT -> EntryT -> bool.

(** The comparator is a strict weak ordering: nothing orders before
    itself, and being equal by the comparator is transitive. *)
Hypothesis less_irrefl : forall a, less a a = false.
Hypothesis equal_trans : forall a b c,
  equal less a b = true -> equal less b c = true -> equal less a c = true.

Abbreviation equal := (UniqueStore.equal less).
Abbreviation dict_find := (UniqueStore.dict_find less).
Abbreviation dict_insert := (UniqueStore.dict_insert less).
Abbreviation find := (UniqueStore.find less).
Abbreviation add := (UniqueStore.add less).
Abbreviation wf := (UniqueStore.wf less).
Abbreviation refCountOf := (UniqueStore.refCountOf less).
Abbreviation run := (UniqueStore.run less).
Abbreviation adds := (UniqueStore.adds less).
Abbreviation removes := (UniqueStore.removes less).

Lemma equal_refl a : equal a a = true.
Proof. unfold UniqueStore.equal. rewrite less_irrefl. reflexivity. Qed.

Lemma equal_sym a b : equal a b = equal b a.
Proof. unfold UniqueStore.equal. apply andb_comm. Qed.

Lemma equal_congr a b k : equal a b = true -> equal a k = equal b k.
Proof.
  intros Hab. destruct (equal b k) eqn:Ebk.
  - exact (equal_trans a b k Hab Ebk).
  - destruct (equal a k) eqn:Eak; [|reflexivity].
    rewrite equal_sym in Hab.
    rewrite (equal_trans b a k Hab Eak) in Ebk. discriminate.
Qed.

(** *** The dictionary *)

Lemma dict_find_equal v1 v2 d :
  equal v1 v2 = true -> dict_find v1 d = dict_find v2 d.
Proof.
  intros H. induction d as [|[k r] d IH]; simpl; [reflexivity|].
  rewrite (equal_congr v1 v2 k H), IH. reflexivity.
Qed.

Lemma dict_find_In v d r :
  dict_find v d = Some r -> exists k, In (k, r) d /\ equal v k = true.
Proof.
  induction d as [|[k r'] d IH]; simpl; [discriminate|].
  destruct (equal v k) eqn:E.
  - intros [= <-]. exists k. split; [now left|exact E].
  - intros H. destruct (IH H) as (k' & Hin & He). exists k'. tauto.
Qed.

Lemma dict_find_None v d :
  dict_find v d = None <-> forall k r, In (k, r) d -> equal v k = false.
Proof.
  induction d as [|[k r] d IH]; simpl.
  - split; [intros _ k r []|reflexivity].
  - destruct (equal v k) eqn:E.
    + split; [discriminate|]. intros H. rewrite (H k r) in E; [discriminate|now left].
    + rewrite IH. split.
      * intros H k' r' [[= <- <-]|Hin]; [exact E|exact (H k' r' Hin)].
      * intros H k' r' Hin. apply (H k' r'). now right.
Qed.

Lemma dict_find_unique v d k r :
  ForallOrdPairs (fun a b => equal (fst a) (fst b) = false) d ->
  In (k, r) d -> equal v k = true -> dict_find v d = Some r.
Proof.
  intros Hu. induction Hu as [|[ka ra] d Ha Hd IH]; intros Hin Hv.
  - destruct Hin.
  - simpl. destruct Hin as [[= -> ->]|Hin].
    + rewrite Hv. reflexivity.
    + destruct (equal v ka) eqn:E; [|exact (IH Hin Hv)].
      rewrite Forall_forall in Ha. specialize (Ha (k, r) Hin). simpl in Ha.
      rewrite equal_sym in E.
      rewrite (equal_trans ka v k E Hv) in Ha. discriminate.
Qed.

Lemma In_dict_insert v r d k r' :
  In (k, r') (dict_insert v r d) <-> (k, r') = (v, r) \/ In (k, r') d.
Proof.
  induction d as [|[ka ra] d IH]; simpl.
  - intuition congruence.
  - destruct (less v ka); simpl.
    + intuition congruence.
    + rewrite IH. intuition congruence.
Qed.

Lemma dict_find_insert_new v r d :
  dict_find v d = None -> dict_find v (dict_insert v r d) = Some r.
Proof.
  induction d as [|[k r'] d IH]; simpl.
  - intros _. rewrite equal_refl. reflexivity.
  - destruct (equal v k) eqn:E; [discriminate|]. intros H.
    destruct (less v k); simpl.
    + rewrite equal_refl. reflexivity.
    + rewrite E. exact (IH H).
Qed.

Lemma dict_find_insert_other v v' r d :
  equal v v' = false -> dict_find v (dict_insert v' r d) = dict_find v d.
Proof.
  intros Hne. induction d as [|[k r'] d IH]; simpl.
  - rewrite Hne. reflexivity.
  - destruct (less v' k); simpl.
    + rewrite Hne. reflexivity.
    + rewrite IH. reflexivity.
Qed.

Lemma dict_find_remove_other v r d :
  (forall k, In (k, r) d -> equal v k = false) ->
  dict_find v (dict_remove r d) = dict_find v d.
Proof.
  induction d as [|[k r'] d IH]; simpl; [reflexivity|]. intros H.
  destruct (Nat.eqb_spec r' r) as [->|Hr]; simpl.
  - rewrite (H k) by now left. apply IH. intros k' Hin. apply H. now right.
  - rewrite IH; [reflexivity|]. intros k' Hin. apply H. now right.
Qed.

Lemma unique_insert v r d :
  ForallOrdPairs (fun a b => equal (fst a) (fst b) = false) d ->
  dict_find v d = None ->
  ForallOrdPairs (fun a b => equal (fst a) (fst b) = false)
    (dict_insert v r d).
Proof.
  intros Hu. induction Hu as [|[ka ra] d Ha Hd IH]; simpl; intros Hnone.
  - constructor; constructor.
  - destruct (equal v ka) eqn:E; [discriminate|].
    destruct (less v ka).
    + constructor; [|constructor; assumption].
      constructor; [exact E|].
      apply Forall_forall. intros [k r'] Hin. simpl.
      rewrite dict_find_None in Hnone. exact (Hnone k r' Hin).
    + constructor; [|exact (IH Hnone)].
      apply Forall_forall. intros [k r'] Hin. simpl.
      apply In_dict_insert in Hin. destruct Hin as [[= -> ->]|Hin].
      * rewrite equal_sym. exact E.
      * rewrite Forall_forall in Ha. exact (Ha (k, r') Hin).
Qed.

(** *** The store *)

Lemma wf_empty : wf empty.
Proof.
  constructor; simpl.
  - intros k r [].
  - intros [|r] e; discriminate.
  - constructor.
Qed.

Lemma find_valid (s : t EntryT) v r :
  wf s -> find v s = Some r ->
  exists e, nth_error (_store s) r = Some e /\ equal v (_value e) = true
            /\ (0 < _refCount e)%nat /\ In (_value e, r) (_dict s).
Proof.
  intros Hwf Hf. apply dict_find_In in Hf. destruct Hf as (k & Hin & He).
  destruct (wf_dict Hwf k r Hin) as (e & Hn & <- & Hpos).
  exists e. auto.
Qed.

Lemma find_live (s : t EntryT) v r e :
  wf s -> nth_error (_store s) r = Some e -> (0 < _refCount e)%nat ->
  equal v (_value e) = true -> find v s = Some r.
Proof.
  intros Hwf Hn Hpos He.
  apply (dict_find_unique v (_dict s) (_value e) r).
  - exact (wf_unique Hwf).
  - exact (wf_live Hwf r e Hn Hpos).
  - exact He.
Qed.

(** Two references of the dictionary with equal values are the same. *)
Lemma find_other (s : t EntryT) v r0 r e :
  wf s -> find v s = Some r0 -> nth_error (_store s) r = Some e ->
  (0 < _refCount e)%nat -> equal v (_value e) = false -> r0 <> r.
Proof.
  intros Hwf Hf Hn Hpos Hne ->.
  destruct (find_valid s v r Hwf Hf) as (e' & Hn' & He' & _).
  congruence.
Qed.

Lemma add_found (s : t EntryT) v r :
  find v s = Some r ->
  add v s =
  ({| _store := DataStore.update_nth r
                  (fun e => set_refCount (S (_refCount e)) e) (_store s);
      _dict := _dict s |},
   {| ref := r; isNew := false |}).
Proof. intros H. unfold UniqueStore.add. rewrite H. reflexivity. Qed.

Lemma add_fresh (s : t EntryT) v :
  find v s = None ->
  add v s =
  ({| _store := _store s ++ [{| _value := v; _refCount := 1 |}];
      _dict := dict_insert v (length (_store s)) (_dict s) |},
   {| ref := length (_store s); isNew := true |}).
Proof. intros H. unfold UniqueStore.add. rewrite H. reflexivity. Qed.

Lemma wf_set_refCount (s : t EntryT) r e n :
  wf s -> nth_error (_store s) r = Some e -> (0 < _refCount e)%nat ->
  (0 < n)%nat ->
  wf {| _store := DataStore.update_nth r (set_refCount n) (_store s);
        _dict := _dict s |}.
Proof.
  intros Hwf Hn Hpos Hnpos. constructor; simpl.
  - intros k r' Hin. rewrite nth_error_update_nth.
    destruct (wf_dict Hwf k r' Hin) as (e' & Hn' & Hv & Hp).
    destruct (Nat.eqb_spec r r') as [<-|Hr].
    + rewrite Hn'. simpl. eexists. split; [reflexivity|]. simpl. auto.
    + exists e'. auto.
  - intros r' e' Hn' Hp. rewrite nth_error_update_nth in Hn'.
    destruct (Nat.eqb_spec r r') as [<-|Hr].
    + rewrite Hn in Hn'. simpl in Hn'. injection Hn' as <-. simpl.
      exact (wf_live Hwf r e Hn Hpos).
    + exact (wf_live Hwf r' e' Hn' Hp).
  - exact (wf_unique Hwf).
Qed.

Lemma wf_add (s : t EntryT) v : wf s -> wf (fst (add v s)).
Proof.
  intros Hwf. destruct (find v s) as [r|] eqn:Hf.
  - rewrite (add_found s v r Hf). simpl.
    destruct (find_valid s v r Hwf Hf) as (e & Hn & _ & Hpos & _).
    constructor; simpl.
    + intros k r' Hin. rewrite nth_error_update_nth.
      destruct (wf_dict Hwf k r' Hin) as (e' & Hn' & Hv & Hp).
      destruct (Nat.eqb_spec r r') as [<-|Hr].
      * rewrite Hn'. simpl. eexists. split; [reflexivity|]. simpl.
        split; [exact Hv|lia].
      * exists e'. auto.
    + intros r' e' Hn' Hp. rewrite nth_error_update_nth in Hn'.
      destruct (Nat.eqb_spec r r') as [<-|Hr].
      * rewrite Hn in Hn'. simpl in Hn'. injection Hn' as <-. simpl.
        exact (wf_live Hwf r e Hn Hpos).
      * exact (wf_live Hwf r' e' Hn' Hp).
    + exact (wf_unique Hwf).
  - rewrite (add_fresh s v Hf). simpl. constructor; simpl.
    + intros k r' Hin. apply In_dict_insert in Hin.
      destruct Hin as [[= -> ->]|Hin].
      * rewrite nth_error_app2, Nat.sub_diag by lia. simpl.
        eexists. split; [reflexivity|]. simpl. split; [reflexivity|lia].
      * destruct (wf_dict Hwf k r' Hin) as (e' & Hn' & Hv & Hp).
        exists e'. split; [|auto].
        rewrite nth_error_app1; [exact Hn'|].
        apply nth_error_Some. congruence.
    + intros r' e' Hn' Hp. apply In_dict_insert.
      destruct (Nat.lt_ge_cases r' (length (_store s))) as [Hlt|Hge].
      * rewrite nth_error_app1 in Hn' by exact Hlt. right.
        exact (wf_live Hwf r' e' Hn' Hp).
      * rewrite nth_error_app2 in Hn' by exact Hge.
        destruct (r' - length (_store s))%nat as [|m] eqn:Em.
        -- simpl in Hn'. injection Hn' as <-. simpl. left.
           f_equal. lia.
        -- simpl in Hn'. destruct m; discriminate.
    + apply unique_insert; [exact (wf_unique Hwf)|exact Hf].
Qed.

Lemma wf_remove (s s' : t EntryT) r :
  wf s -> remove r s = Returned s' -> wf s'.
Proof.
  intros Hwf. unfold remove.
  destruct (nth_error (_store s) r) as [e|] eqn:Hn; [|discriminate].
  destruct (_refCount e) as [|[|n]] eqn:Hrc; [discriminate| |].
  - intros [= <-]. constructor; simpl.
    + intros k r' Hin. apply filter_In in Hin. destruct Hin as [Hin Hr].
      simpl in Hr. apply negb_true_iff, Nat.eqb_neq in Hr.
      rewrite nth_error_update_nth.
      destruct (Nat.eqb_spec r r') as [<-|_]; [congruence|].
      exact (wf_dict Hwf k r' Hin).
    + intros r' e' Hn' Hp. rewrite nth_error_update_nth in Hn'.
      destruct (Nat.eqb_spec r r') as [<-|Hr].
      * rewrite Hn in Hn'. simpl in Hn'. injection Hn' as <-.
        simpl in Hp. lia.
      * apply filter_In. split; [exact (wf_live Hwf r' e' Hn' Hp)|].
        simpl. apply negb_true_iff, Nat.eqb_neq. congruence.
    + apply ForallOrdPairs_filter. exact (wf_unique Hwf).
  - intros [= <-]. apply (wf_set_refCount s r e (S n) Hwf Hn); lia.
Qed.

Lemma refCount_set (s : t EntryT) r r' f d :
  refCount r' {| _store := DataStore.update_nth r f (_store s); _dict := d |}
  = if Nat.eqb r r'
    then match nth_error (_store s) r' with
         | Some e => _refCount (f e)
         | None => 0%nat
         end
    else refCount r' s.
Proof.
  unfold refCount. simpl. rewrite nth_error_update_nth.
  destruct (Nat.eqb r r'); [|reflexivity].
  destruct (nth_error (_store s) r'); reflexivity.
Qed.

(** What [add] does to the count of a value. *)
Lemma refCountOf_add (s : t EntryT) v v' :
  wf s ->
  refCountOf v (fst (add v' s))
  = (refCountOf v s + if equal v v' then 1 else 0)%nat.
Proof.
  intros Hwf. unfold UniqueStore.refCountOf.
  destruct (find v' s) as [r|] eqn:Hf.
  - rewrite (add_found s v' r Hf). simpl.
    destruct (find_valid s v' r Hwf Hf) as (e & Hn & He & Hpos & Hin).
    unfold UniqueStore.find at 1. simpl. fold (find v s).
    destruct (equal v v') eqn:Evv.
    + unfold UniqueStore.find in *. rewrite (dict_find_equal v v' _ Evv), Hf.
      rewrite refCount_set, Nat.eqb_refl, Hn. unfold refCount. rewrite Hn.
      simpl. lia.
    + destruct (find v s) as [r0|] eqn:Hf0; [|reflexivity].
      rewrite refCount_set.
      destruct (Nat.eqb_spec r r0) as [<-|_]; [|lia].
      exfalso. destruct (find_valid s v r Hwf Hf0) as (e0 & Hn0 & He0 & _).
      assert (e0 = e) as -> by congruence.
      rewrite equal_sym in He.
      rewrite (equal_trans v (_value e) v' He0 He) in Evv. discriminate.
  - rewrite (add_fresh s v' Hf). simpl.
    unfold UniqueStore.find at 1. simpl.
    destruct (equal v v') eqn:Evv.
    + unfold UniqueStore.find in *.
      rewrite (dict_find_equal v v' _ Evv).
      rewrite (dict_find_equal v v' _ Evv), Hf.
      rewrite dict_find_insert_new by exact Hf.
      unfold refCount. simpl.
      rewrite nth_error_app2, Nat.sub_diag by lia. reflexivity.
    + rewrite dict_find_insert_other by exact Evv. fold (find v s).
      destruct (find v s) as [r0|] eqn:Hf0; [|reflexivity].
      destruct (find_valid s v r0 Hwf Hf0) as (e0 & Hn0 & _).
      unfold refCount. simpl.
      rewrite nth_error_app1 by (apply nth_error_Some; congruence).
      lia.
Qed.

(** What [remove] does to the count of a value. *)
Lemma refCountOf_remove (s s' : t EntryT) v r k :
  wf s -> remove r s = Returned s' -> get r s = Some k ->
  (refCountOf v s' + if equal v k then 1 else 0)%nat = refCountOf v s.
Proof.
  intros Hwf. unfold remove, get.
  destruct (nth_error (_store s) r) as [e|] eqn:Hn; [|discriminate].
  simpl. intros Hrm [= <-].
  assert (forall k', In (k', r) (_dict s) -> k' = _value e) as Hkeys.
  { intros k' Hin. destruct (wf_dict Hwf k' r Hin) as (e' & Hn' & <- & _).
    congruence. }
  unfold UniqueStore.refCountOf.
  destruct (_refCount e) as [|[|n]] eqn:Hrc; [discriminate| |];
    injection Hrm as <-; unfold UniqueStore.find at 1; simpl;
    fold (find v s).
  - (* the last reference goes: the dictionary entry goes too *)
    destruct (equal v (_value e)) eqn:Ev.
    + rewrite (find_live s v r e Hwf Hn) by (auto; lia).
      assert (dict_find v (dict_remove r (_dict s)) = None) as ->.
      { apply dict_find_None. intros k' r' Hin.
        apply filter_In in Hin. destruct Hin as [Hin Hr]. simpl in Hr.
        apply negb_true_iff, Nat.eqb_neq in Hr.
        destruct (equal v k') eqn:Evk; [|reflexivity]. exfalso.
        assert (find v s = Some r') as Hf'.
        { apply (dict_find_unique v (_dict s) k' r');
            [exact (wf_unique Hwf)|exact Hin|exact Evk]. }
        rewrite (find_live s v r e Hwf Hn) in Hf' by (auto; lia).
        congruence. }
      unfold refCount. rewrite Hn, Hrc. reflexivity.
    + rewrite dict_find_remove_other.
      2:{ intros k' Hin. rewrite (Hkeys k' Hin). exact Ev. }
      fold (find v s).
      destruct (find v s) as [r0|] eqn:Hf0; [|reflexivity].
      rewrite refCount_set.
      assert (r0 <> r) as Hr0
        by (apply (find_other s v r0 r e); auto; lia).
      destruct (Nat.eqb_spec r r0); [congruence|lia].
  - (* other references are left *)
    destruct (equal v (_value e)) eqn:Ev.
    + rewrite (find_live s v r e Hwf Hn) by (auto; lia).
      rewrite refCount_set, Nat.eqb_refl, Hn. simpl.
      unfold refCount. rewrite Hn, Hrc. lia.
    + destruct (find v s) as [r0|] eqn:Hf0; [|reflexivity].
      rewrite refCount_set.
      assert (r0 <> r) as Hr0
        by (apply (find_other s v r0 r e); auto; lia).
      destruct (Nat.eqb_spec r r0); [congruence|lia].
Qed.

Lemma run_counts (ops : list (op EntryT)) (s s' : t EntryT) v :
  wf s -> run ops s = Returned s' ->
  (refCountOf v s' + removes v ops s = refCountOf v s + adds v ops)%nat.
Proof.
  revert s. induction ops as [|[v'|r] ops IH]; intros s Hwf Hrun; simpl in *.
  - injection Hrun as <-. lia.
  - specialize (IH _ (wf_add s v' Hwf) Hrun).
    rewrite (refCountOf_add s v v' Hwf) in IH. lia.
  - destruct (remove r s) as [s1| | |] eqn:Hrm; try discriminate.
    specialize (IH _ (wf_remove s s1 r Hwf Hrm) Hrun).
    destruct (get r s) as [k|] eqn:Hg.
    + pose proof (refCountOf_remove s s1 v r k Hwf Hrm Hg). lia.
    + exfalso. unfold remove, get in *.
      destruct (nth_error (_store s) r); discriminate.
Qed.

(** C4: two adds of values that are equal by the comparator return the
    same reference; the second reports no new entry and raises the count
    by one; the first, when the value is not yet in the store, reports a
    new entry with count one.  After any interleaving of adds and removes
    that the store accepts, starting from the empty store, the count of a
    value is the number of its adds minus the number of its removes. *)
Theorem add_deduplicates :
  (forall (s : t EntryT) (v1 v2 : EntryT),
     wf s -> equal v1 v2 = true ->
     let '(s1, a1) := add v1 s in
     let '(s2, a2) := add v2 s1 in
     ref a1 = ref a2
     /\ isNew a2 = false
     /\ refCount (ref a2) s2 = S (refCount (ref a1) s1)
     /\ (find v1 s = None ->
         isNew a1 = true /\ refCount (ref a1) s1 = 1%nat))
  /\
  (forall (ops : list (op EntryT)) (final : t EntryT) (v : EntryT),
     run ops empty = Returned final ->
     Z.of_nat (refCountOf v final)
     = Z.of_nat (adds v ops) - Z.of_nat (removes v ops empty)).
Proof.
  split.
  - intros s v1 v2 Hwf Heq.
    pose proof (wf_add s v1 Hwf) as Hwf1.
    assert (find v2 (fst (add v1 s)) = Some (ref (snd (add v1 s)))) as Hf2.
    { rewrite equal_sym in Heq. unfold UniqueStore.find.
      rewrite (dict_find_equal v2 v1 _ Heq).
      destruct (find v1 s) as [r|] eqn:Hf.
      - rewrite (add_found s v1 r Hf). simpl. exact Hf.
      - rewrite (add_fresh s v1 Hf). simpl.
        apply dict_find_insert_new. exact Hf. }
    assert (find v1 s = None ->
            isNew (snd (add v1 s)) = true
            /\ refCount (ref (snd (add v1 s))) (fst (add v1 s)) = 1%nat)
      as Hnew.
    { intros Hf. rewrite (add_fresh s v1 Hf). simpl. split; [reflexivity|].
      unfold refCount. simpl.
      rewrite nth_error_app2, Nat.sub_diag by lia. reflexivity. }
    destruct (add v1 s) as [s1 a1]. simpl in *.
    rewrite (add_found s1 v2 (ref a1) Hf2).
    destruct (find_valid s1 v2 (ref a1) Hwf1 Hf2) as (e & Hn & _).
    split; [reflexivity|]. split; [reflexivity|]. split; [|exact Hnew].
    simpl. rewrite refCount_set, Nat.eqb_refl, Hn.
    unfold refCount. rewrite Hn. reflexivity.
  - intros ops final v Hrun.
    pose proof (run_counts ops empty final v wf_empty Hrun) as H.
    unfold UniqueStore.refCountOf at 2 in H. simpl in H. lia.
Qed.

End WithComparator.

Lemma lessLastDigit_irrefl (a : Z) : Samples.lessLastDigit a a = false.
Proof. unfold Samples.lessLastDigit. apply Z.ltb_irrefl. Qed.

Lemma lessLastDigit_equal (a b : Z) :
  equal Samples.lessLastDigit a b = true <-> a mod 10 = b mod 10.
Proof.
  unfold equal, Samples.lessLastDigit.
  rewrite andb_true_iff, !negb_true_iff, !Z.ltb_ge. lia.
Qed.

Lemma lessLastDigit_equal_trans (a b c : Z) :
  equal Samples.lessLastDigit a b = true ->
  equal Samples.lessLastDigit b c = true ->
  equal Samples.lessLastDigit a c = true.
Proof. rewrite !lessLastDigit_equal. congruence. Qed.

(** 3 and 13 are equal by their last digit; 3 is added twice, 13 once,
    and the entry is removed once. *)
Lemma add_deduplicates_witness :
  (let '(s1, a1) := add Samples.lessLastDigit 3 empty in
   let '(s2, a2) := add Samples.lessLastDigit 13 s1 in
   ref a1 = ref a2 /\ isNew a2 = false
   /\ refCount (ref a2) s2 = S (refCount (ref a1) s1)
   /\ (find Samples.lessLastDigit 3 empty = None ->
       isNew a1 = true /\ refCount (ref a1) s1 = 1%nat))
  /\
  Z.of_nat (refCountOf Samples.lessLastDigit 3
              {| _store := [{| _value := 3; _refCount := 2 |};
                            {| _value := 4; _refCount := 1 |}];
                 _dict := [(3, 0%nat); (4, 1%nat)] |})
  = 3 - 1.
Proof.
  destruct (add_deduplicates Z Samples.lessLastDigit lessLastDigit_irrefl
              lessLastDigit_equal_trans) as [Hsame Hcount].
  split.
  - apply (Hsame empty 3 13).
    + apply wf_empty.
    + reflexivity.
  - apply (Hcount [Add 3; Add 4; Add 13; Remove 0%nat; Add 3]).
    reflexivity.
Defined.

(** Scenario A of the design document. *)
Example add_twice_remove_twice :
  let s1 := fst (add Samples.lessLastDigit 3 empty) in
  let s2 := fst (add Samples.lessLastDigit 3 s1) in
  snd (add Samples.lessLastDigit 3 empty) = {| ref := 0%nat; isNew := true |}
  /\ snd (add Samples.lessLastDigit 3 s1) = {| ref := 0%nat; isNew := false |}
  /\ refCount 0%nat s2 = 2%nat
  /\ (exists s3 s4,
        remove 0%nat s2 = Returned s3 /\ refCount 0%nat s3 = 1%nat
        /\ get 0%nat s3 = Some 3
        /\ remove 0%nat s3 = Returned s4
        /\ find Samples.lessLastDigit 3 s4 = None
        /\ remove 0%nat s4 = AssertionFailed).
Proof.
  repeat split. do 2 eexists. repeat split.
Qed.

End UniqueStoreFacts.

(** ** Buffer sizing: bounds and outcomes *)

Module EnumBufferTypeBounds.

Import EnumBufferType.

Lemma wrap64_multiple_pow2 (k y : Z) :
  0 <= k <= 64 -> y mod 2 ^ k = 0 -> wrap64 y mod 2 ^ k = 0.
Proof.
  intros Hk Hy. unfold wrap64.
  assert (0 < 2 ^ k) as Hpos by (apply Z.pow_pos_nonneg; lia).
  apply Z.mod_divide in Hy; [|lia]. destruct Hy as [q ->].
  replace (2 ^ 64) with (2 ^ (64 - k) * 2 ^ k)
    by (rewrite <- Z.pow_add_r by lia; f_equal; lia).
  assert (0 < 2 ^ (64 - k)) by (apply Z.pow_pos_nonneg; lia).
  rewrite Z.mul_mod_distr_r by lia.
  apply Z.mod_mul. lia.
Qed.

Section Sizing.

Variable alignment : Z.
Variable getReservedElements : t -> Z -> Z.

Abbreviation call := (calcArraysToAlloc alignment getReservedElements).

(** X1: whatever is asked for, a count that [calcArraysToAlloc] returns is
    at most [_maxArrays], so the buffer never exceeds the capacity
    [_maxArrays * _arraySize]. *)
Theorem calcArraysToAlloc_within_capacity
    (bt : t) (bufferId sizeNeeded arrays : Z) (resizing : bool) :
  0 < _arraySize bt ->
  call bt bufferId sizeNeeded resizing = Returned arrays ->
  arrays <= _maxArrays bt
  /\ arrays * _arraySize bt <= _maxArrays bt * _arraySize bt.
Proof.
  intros Ha. unfold calcArraysToAlloc, failNewSize.
  destruct (negb _); [discriminate|].
  destruct (if usedElems bt =? 0 then _ else _) as [g|]; [|discriminate].
  set (first := wrap64 (alignBufferSize alignment
                          (wrap64 (g + getReservedElements bt bufferId)))).
  destruct (negb (first mod _arraySize bt =? 0)); [discriminate|].
  destruct (Z.leb_spec first (_maxArrays bt * _arraySize bt)) as [Hfit|Hbig].
  - intros [= <-].
    assert (first / _arraySize bt <= _maxArrays bt) as Hle.
    { apply Z.div_le_upper_bound; lia. }
    split; [exact Hle|].
    apply Z.mul_le_mono_nonneg_r; lia.
  - destruct (negb _); [discriminate|].
    destruct (_ <=? _); [|discriminate].
    intros [= <-]. lia.
Qed.

(** X2: when [calcArraysToAlloc] throws, the exception carries the size of
    the retry and the capacity, and both the first size and the retry size
    exceed the capacity. *)
Theorem calcArraysToAlloc_throws_above_capacity
    (bt : t) (bufferId sizeNeeded : Z) (resizing : bool) (e : exn) :
  call bt bufferId sizeNeeded resizing = Thrown e ->
  let maxSize := _maxArrays bt * _arraySize bt in
  let retry := retry_size alignment getReservedElements bt bufferId
                 sizeNeeded in
  e = IllegalStateException retry maxSize
  /\ maxSize < retry
  /\ exists first,
       first_size alignment getReservedElements bt bufferId sizeNeeded
       = Some first
       /\ maxSize < first.
Proof.
  unfold calcArraysToAlloc, failNewSize, first_size, retry_size.
  destruct (negb _); [discriminate|].
  destruct (if usedElems bt =? 0 then _ else _) as [g|]; [|discriminate].
  set (first := wrap64 (alignBufferSize alignment
                          (wrap64 (g + getReservedElements bt bufferId)))).
  destruct (negb (first mod _arraySize bt =? 0)); [discriminate|].
  destruct (Z.leb_spec first (_maxArrays bt * _arraySize bt)) as [Hfit|Hbig];
    [discriminate|].
  destruct (negb _); [discriminate|].
  destruct (Z.leb_spec
              (wrap64 (alignBufferSize alignment
                 (wrap64 (usedElems bt - _deadElems bt
                          + Z.max sizeNeeded (_minSizeNeeded bt)
                          + getReservedElements bt bufferId + 1000000))))
              (_maxArrays bt * _arraySize bt)) as [Hr|Hr]; [discriminate|].
  intros [= <-]. simpl.
  split; [reflexivity|]. split; [exact Hr|].
  exists first. split; [reflexivity|exact Hbig].
Qed.

(** X3: with arrays of one alignment unit, a power of two, and a used
    element count that is a multiple of it, no assertion of
    [calcArraysToAlloc] fails, for any request and any field values: the
    aligned sizes stay multiples of the array size even where the 64-bit
    arithmetic wraps. *)
Theorem calcArraysToAlloc_assertions_hold
    (bt : t) (bufferId sizeNeeded : Z) (resizing : bool) (k : Z) :
  0 <= k <= 64 ->
  alignment = 2 ^ k ->
  _arraySize bt = alignment ->
  usedElems bt mod alignment = 0 ->
  call bt bufferId sizeNeeded resizing <> AssertionFailed.
Proof.
  intros Hk Hal Harr Hused.
  assert (0 < alignment) as Hpos
    by (rewrite Hal; apply Z.pow_pos_nonneg; lia).
  assert (forall x, wrap64 (alignBufferSize alignment x) mod alignment = 0)
    as Hmul.
  { intros x.
    pose proof (wrap64_multiple_pow2 k (alignBufferSize alignment x) Hk)
      as Hw.
    rewrite <- Hal in Hw. apply Hw.
    unfold alignBufferSize, Index_align. apply Z.mod_mul. lia. }
  unfold calcArraysToAlloc, failNewSize. rewrite Harr, Hused. simpl.
  destruct (if usedElems bt =? 0 then _ else _) as [g|]; [|discriminate].
  rewrite Hmul. simpl.
  destruct (_ <=? _); [discriminate|].
  rewrite Hmul. simpl.
  destruct (_ <=? _); discriminate.
Qed.

(** The three outcomes of a sizing in which no quantity comes near the
    64-bit range. *)
Lemma sizing_cases (bt : t) (bufferId sizeNeeded : Z) (resizing : bool) :
  0 < alignment < 2 ^ 50 ->
  _arraySize bt = alignment ->
  usedElems bt mod alignment = 0 ->
  0 <= _deadElems bt <= usedElems bt -> usedElems bt < 2 ^ 50 ->
  0 <= sizeNeeded < 2 ^ 50 -> 0 <= _minSizeNeeded bt < 2 ^ 50 ->
  0 <= getReservedElements bt bufferId < 2 ^ 50 ->
  let r := getReservedElements bt bufferId in
  let base := usedElems bt - _deadElems bt
              + Z.max sizeNeeded (_minSizeNeeded bt) in
  let first := alignBufferSize alignment (grown_size bt sizeNeeded + r) in
  let retry := alignBufferSize alignment (base + r + 1000000) in
  let maxSize := _maxArrays bt * alignment in
  call bt bufferId sizeNeeded resizing
  = if first <=? maxSize then Returned (first / alignment)
    else if retry <=? maxSize then Returned (_maxArrays bt)
    else Thrown (IllegalStateException retry maxSize).
Proof.
  intros Ha Harr Hused Hd Hu Hs Hm Hr r base first retry maxSize.
  destruct (EnumBufferTypeFacts.grown_size_machine bt sizeNeeded Hd Hu Hs Hm)
    as [Hg Hgb].
  unfold calcArraysToAlloc, failNewSize. rewrite Harr.
  rewrite (EnumBufferTypeFacts.eqb_mod_zero _ _ Hused). rewrite Hg.
  fold r. fold base.
  assert (0 <= base < 2 ^ 51) as Hb by (unfold base; lia).
  rewrite (wrap64_small (grown_size bt sizeNeeded + r)) by lia.
  fold first.
  pose proof (EnumBufferTypeFacts.alignBufferSize_bounds alignment
                (grown_size bt sizeNeeded + r) (proj1 Ha)) as Hfb.
  pose proof (EnumBufferTypeFacts.alignBufferSize_multiple alignment
                (grown_size bt sizeNeeded + r) (proj1 Ha)) as Hfm.
  fold first in Hfb, Hfm.
  rewrite (wrap64_small first) by lia.
  rewrite (EnumBufferTypeFacts.eqb_mod_zero _ _ Hfm).
  fold maxSize. destruct (first <=? maxSize); [reflexivity|].
  rewrite (wrap64_small (base + r + 1000000)) by lia.
  fold retry.
  pose proof (EnumBufferTypeFacts.alignBufferSize_bounds alignment
                (base + r + 1000000) (proj1 Ha)) as Hrb.
  pose proof (EnumBufferTypeFacts.alignBufferSize_multiple alignment
                (base + r + 1000000) (proj1 Ha)) as Hrm.
  fold retry in Hrb, Hrm.
  rewrite (wrap64_small retry) by lia.
  rewrite (EnumBufferTypeFacts.eqb_mod_zero _ _ Hrm).
  reflexivity.
Qed.

Lemma grown_size_lower (bt : t) (sizeNeeded : Z) :
  0 <= usedElems bt - _deadElems bt
       + Z.max sizeNeeded (_minSizeNeeded bt) ->
  usedElems bt - _deadElems bt + Z.max sizeNeeded (_minSizeNeeded bt)
  <= grown_size bt sizeNeeded.
Proof.
  intros Hb. unfold grown_size.
  destruct (usedElems bt =? 0); [lia|].
  apply Z.div_le_lower_bound; lia.
Qed.

Lemma returned_size_lower
    (bt : t) (bufferId sizeNeeded arrays : Z) (resizing : bool) :
  0 < alignment < 2 ^ 50 ->
  _arraySize bt = alignment ->
  0 <= _deadElems bt <= usedElems bt -> usedElems bt < 2 ^ 50 ->
  0 <= sizeNeeded < 2 ^ 50 -> 0 <= _minSizeNeeded bt < 2 ^ 50 ->
  0 <= getReservedElements bt bufferId < 2 ^ 50 ->
  call bt bufferId sizeNeeded resizing = Returned arrays ->
  usedElems bt - _deadElems bt + Z.max sizeNeeded (_minSizeNeeded bt)
  + getReservedElements bt bufferId
  <= arrays * _arraySize bt.
Proof.
  intros Ha Harr Hd Hu Hs Hm Hr Hcall.
  destruct (Z.eq_dec (usedElems bt mod alignment) 0) as [Hused|Hused].
  - rewrite (sizing_cases bt bufferId sizeNeeded resizing
               Ha Harr Hused Hd Hu Hs Hm Hr) in Hcall.
    cbv zeta in Hcall. rewrite Harr.
    pose proof (grown_size_lower bt sizeNeeded ltac:(lia)) as Hgl.
    destruct (Z.leb_spec
                (alignBufferSize alignment
                   (grown_size bt sizeNeeded + getReservedElements bt bufferId))
                (_maxArrays bt * alignment)) as [Hfit|Hbig].
    + injection Hcall as <-.
      pose proof (EnumBufferTypeFacts.alignBufferSize_bounds alignment
                    (grown_size bt sizeNeeded + getReservedElements bt bufferId)
                    (proj1 Ha)) as Hfb.
      pose proof (EnumBufferTypeFacts.alignBufferSize_multiple alignment
                    (grown_size bt sizeNeeded + getReservedElements bt bufferId)
                    (proj1 Ha)) as Hfm.
      apply Z.mod_divide in Hfm; [|lia]. destruct Hfm as [q Hq].
      rewrite Hq in *. rewrite Z.div_mul by lia. lia.
    + destruct (Z.leb_spec
                  (alignBufferSize alignment
                     (usedElems bt - _deadElems bt
                      + Z.max sizeNeeded (_minSizeNeeded bt)
                      + getReservedElements bt bufferId + 1000000))
                  (_maxArrays bt * alignment)) as [Hrfit|Hrbig];
        [|discriminate].
      injection Hcall as <-.
      pose proof (EnumBufferTypeFacts.alignBufferSize_bounds alignment
                    (usedElems bt - _deadElems bt
                     + Z.max sizeNeeded (_minSizeNeeded bt)
                     + getReservedElements bt bufferId + 1000000)
                    (proj1 Ha)) as Hrb.
      lia.
  - exfalso. unfold calcArraysToAlloc in Hcall. rewrite Harr in Hcall.
    destruct (Z.eqb_spec (usedElems bt mod alignment) 0); [contradiction|].
    discriminate.
Qed.

(** X4: a buffer that [calcArraysToAlloc] returns has room for the live
    elements, the larger of the request and the recorded minimum, and the
    reserve (no quantity near the 64-bit range). *)
Theorem calcArraysToAlloc_holds_request
    (bt : t) (bufferId sizeNeeded arrays : Z) (resizing : bool) :
  0 < alignment < 2 ^ 50 ->
  _arraySize bt = alignment ->
  0 <= _deadElems bt <= usedElems bt -> usedElems bt < 2 ^ 50 ->
  0 <= sizeNeeded < 2 ^ 50 -> 0 <= _minSizeNeeded bt < 2 ^ 50 ->
  0 <= getReservedElements bt bufferId < 2 ^ 50 ->
  call bt bufferId sizeNeeded resizing = Returned arrays ->
  usedElems bt - _deadElems bt + Z.max sizeNeeded (_minSizeNeeded bt)
  + getReservedElements bt bufferId
  <= arrays * _arraySize bt.
Proof. exact (returned_size_lower bt bufferId sizeNeeded arrays resizing). Qed.

(** X17: on an empty buffer type, a request that comes within one
    alignment unit of [2^64] wraps when it is rounded up: the call returns
    zero arrays and neither fails nor throws. *)
Theorem calcArraysToAlloc_wraps_to_nothing
    (bt : t) (bufferId sizeNeeded : Z) (resizing : bool) :
  let wanted := Z.max sizeNeeded (_minSizeNeeded bt)
                + getReservedElements bt bufferId in
  0 < alignment ->
  2 ^ 64 mod alignment = 0 ->
  _arraySize bt = alignment ->
  0 <= _maxArrays bt ->
  usedElems bt = 0 -> _deadElems bt = 0 ->
  0 <= Z.max sizeNeeded (_minSizeNeeded bt) < 2 ^ 64 ->
  2 ^ 64 - alignment < wanted < 2 ^ 64 ->
  call bt bufferId sizeNeeded resizing = Returned 0.
Proof.
  intros wanted Ha Hdiv Harr Hmax Hused Hdead Hneed Hw.
  assert (alignment <= 2 ^ 64) as Hale.
  { apply Z.divide_pos_le; [lia|]. apply Z.mod_divide; [lia|exact Hdiv]. }
  assert (alignBufferSize alignment wanted = 2 ^ 64) as Hal.
  { destruct (EnumBufferTypeFacts.alignBufferSize_rounds_up alignment wanted
                Ha) as (Hge & Hmul & Hleast).
    pose proof (EnumBufferTypeFacts.alignBufferSize_bounds alignment wanted
                  Ha) as Hb.
    specialize (Hleast (2 ^ 64) ltac:(lia) Hdiv).
    apply Z.mod_divide in Hmul; [|lia]. destruct Hmul as [q Hq].
    apply Z.mod_divide in Hdiv; [|lia]. destruct Hdiv as [m Hm].
    rewrite Hq, Hm in *.
    assert (m - 1 < q) by (apply (Z.mul_lt_mono_pos_r alignment); lia).
    assert (q <= m) by (apply (Z.mul_le_mono_pos_r _ _ alignment); lia).
    f_equal. lia. }
  unfold calcArraysToAlloc. rewrite Harr, Hused, Hdead.
  rewrite Z.mod_0_l by lia. simpl (negb (0 =? 0)). cbv iota.
  simpl (0 =? 0). cbv iota.
  replace (0 - 0 + Z.max sizeNeeded (_minSizeNeeded bt))
    with (Z.max sizeNeeded (_minSizeNeeded bt)) by lia.
  rewrite (wrap64_small (Z.max sizeNeeded (_minSizeNeeded bt))) by lia.
  fold wanted. rewrite (wrap64_small wanted) by lia.
  rewrite Hal.
  replace (wrap64 (2 ^ 64)) with 0 by reflexivity.
  rewrite Z.mod_0_l by lia. simpl (negb (0 =? 0)). cbv iota.
  destruct (Z.leb_spec 0 (_maxArrays bt * alignment)) as [_|Hneg].
  - rewrite Z.div_0_l by lia. reflexivity.
  - exfalso. assert (0 <= _maxArrays bt * alignment)
      by (apply Z.mul_nonneg_nonneg; lia). lia.
Qed.

(** X5: a larger request never gets a smaller buffer: of two sizings of
    the same buffer type that both return, the one for the larger request
    returns at least as many arrays. *)
Theorem calcArraysToAlloc_monotone
    (bt : t) (bufferId small large arrays1 arrays2 : Z)
    (resizing1 resizing2 : bool) :
  0 < alignment < 2 ^ 50 ->
  _arraySize bt = alignment ->
  0 <= _deadElems bt <= usedElems bt -> usedElems bt < 2 ^ 50 ->
  0 <= _minSizeNeeded bt < 2 ^ 50 ->
  0 <= getReservedElements bt bufferId < 2 ^ 50 ->
  0 <= small <= large -> large < 2 ^ 50 ->
  call bt bufferId small resizing1 = Returned arrays1 ->
  call bt bufferId large resizing2 = Returned arrays2 ->
  arrays1 <= arrays2.
Proof.
  intros Ha Harr Hd Hu Hm Hr Hsl Hl Hc1 Hc2.
  destruct (Z.eq_dec (usedElems bt mod alignment) 0) as [Hused|Hused].
  2:{ exfalso. unfold calcArraysToAlloc in Hc1. rewrite Harr in Hc1.
      destruct (Z.eqb_spec (usedElems bt mod alignment) 0); [contradiction|].
      discriminate. }
  rewrite (sizing_cases bt bufferId small resizing1
             Ha Harr Hused Hd Hu ltac:(lia) Hm Hr) in Hc1.
  rewrite (sizing_cases bt bufferId large resizing2
             Ha Harr Hused Hd Hu ltac:(lia) Hm Hr) in Hc2.
  cbv zeta in Hc1, Hc2.
  set (r := getReservedElements bt bufferId) in *.
  assert (grown_size bt small <= grown_size bt large) as Hgrow.
  { unfold grown_size. destruct (usedElems bt =? 0); [lia|].
    apply Z.div_le_mono; lia. }
  pose proof (EnumBufferTypeFacts.alignBufferSize_monotone alignment
                (grown_size bt small + r) (grown_size bt large + r)
                (proj1 Ha) ltac:(lia)) as Hmono.
  set (first1 := alignBufferSize alignment (grown_size bt small + r)) in *.
  set (first2 := alignBufferSize alignment (grown_size bt large + r)) in *.
  destruct (Z.leb_spec first2 (_maxArrays bt * alignment)) as [Hfit2|Hbig2].
  - destruct (Z.leb_spec first1 (_maxArrays bt * alignment)); [|lia].
    injection Hc1 as <-. injection Hc2 as <-.
    apply Z.div_le_mono; lia.
  - assert (arrays2 = _maxArrays bt) as ->.
    { destruct (_ <=? _) in Hc2; [congruence|discriminate]. }
    destruct (Z.leb_spec first1 (_maxArrays bt * alignment)) as [Hfit1|Hbig1].
    + injection Hc1 as <-. apply Z.div_le_upper_bound; lia.
    + destruct (_ <=? _) in Hc1; [|discriminate].
      injection Hc1 as <-. lia.
Qed.

(** X6: the buffer type as the store constructs it, with the initial
    buffer size recorded, passes its own assertion and sizes a buffer
    without growth: the larger of the request and the initial size plus
    the reserve, rounded up, whenever that fits the offset range. *)
Theorem calcArraysToAlloc_of_constructed
    (offsetSize initBufferSize bufferId sizeNeeded : Z) (resizing : bool) :
  let bt := setSizeNeededAndDead initBufferSize 0
              (EnumBufferType alignment offsetSize) in
  let size := alignBufferSize alignment
                (Z.max sizeNeeded initBufferSize
                 + getReservedElements bt bufferId) in
  0 < alignment < 2 ^ 50 ->
  offsetSize mod alignment = 0 ->
  0 <= sizeNeeded < 2 ^ 50 -> 0 <= initBufferSize < 2 ^ 50 ->
  0 <= getReservedElements bt bufferId < 2 ^ 50 ->
  size <= offsetSize ->
  call bt bufferId sizeNeeded resizing = Returned (size / alignment).
Proof.
  intros bt size Ha Hoff Hs Hi Hr Hfit.
  destruct (EnumBufferTypeFacts.EnumBufferType_capacity alignment offsetSize
              (proj1 Ha) Hoff) as (Harr & Hcap & Hused).
  assert (_arraySize bt = alignment) as Harr' by exact Harr.
  assert (usedElems bt = 0) as Hused' by exact Hused.
  assert (_maxArrays bt * alignment = offsetSize) as Hcap'.
  { transitivity (_maxArrays (EnumBufferType alignment offsetSize)
                  * _arraySize (EnumBufferType alignment offsetSize));
      [rewrite Harr; reflexivity|exact Hcap]. }
  rewrite (sizing_cases bt bufferId sizeNeeded resizing Ha Harr').
  - cbv zeta. unfold grown_size. rewrite Hused'. simpl (0 =? 0).
    cbv iota. simpl (_deadElems bt). simpl (_minSizeNeeded bt).
    replace (0 - 0 + Z.max sizeNeeded initBufferSize)
      with (Z.max sizeNeeded initBufferSize) by lia.
    fold size. rewrite Hcap'.
    destruct (Z.leb_spec size offsetSize); [reflexivity|lia].
  - rewrite Hused'. apply Z.mod_0_l. lia.
  - rewrite Hused'. simpl. lia.
  - rewrite Hused'. lia.
  - exact Hs.
  - exact Hi.
  - exact Hr.
Qed.

End Sizing.

Lemma calcArraysToAlloc_within_capacity_witness :
  24 <= 2 ^ 27 /\ 24 * 16 <= 2 ^ 27 * 16.
Proof.
  apply (calcArraysToAlloc_within_capacity 16 Samples.reservedElements
           (Samples.bufferType 160 16 0) 0 100 24 false);
    reflexivity.
Defined.

Lemma calcArraysToAlloc_throws_above_capacity_witness :
  IllegalStateException 2148483648 2147483648
  = IllegalStateException 2148483648 2147483648
  /\ 2147483648 < 2148483648
  /\ exists first,
       first_size 16 Samples.reservedElements
         (Samples.bufferType 2147483632 0 0) 1 16 = Some first
       /\ 2147483648 < first.
Proof.
  apply (calcArraysToAlloc_throws_above_capacity 16 Samples.reservedElements
           (Samples.bufferType 2147483632 0 0) 1 16 false).
  reflexivity.
Defined.

Lemma calcArraysToAlloc_assertions_hold_witness :
  calcArraysToAlloc 16 Samples.reservedElements
    (Samples.bufferType 160 16 0) 1 (2 ^ 64 - 8) false <> AssertionFailed.
Proof.
  apply (calcArraysToAlloc_assertions_hold 16 Samples.reservedElements
           (Samples.bufferType 160 16 0) 1 (2 ^ 64 - 8) false 4);
    [lia|reflexivity|reflexivity|reflexivity].
Defined.

Lemma calcArraysToAlloc_holds_request_witness :
  160 - 16 + Z.max 100 0 + 16 <= 24 * 16.
Proof.
  apply (calcArraysToAlloc_holds_request 16 Samples.reservedElements
           (Samples.bufferType 160 16 0) 0 100 24 false);
    vm_compute; try reflexivity; repeat split; discriminate.
Defined.

Lemma calcArraysToAlloc_wraps_to_nothing_witness :
  calcArraysToAlloc 16 Samples.reservedElements
    (Samples.bufferType 0 0 0) 1 (2 ^ 64 - 8) false = Returned 0.
Proof.
  apply (calcArraysToAlloc_wraps_to_nothing 16 Samples.reservedElements
           (Samples.bufferType 0 0 0) 1 (2 ^ 64 - 8) false);
    vm_compute; try reflexivity; repeat split; discriminate.
Defined.

Lemma calcArraysToAlloc_monotone_witness : 24 <= 34.
Proof.
  apply (calcArraysToAlloc_monotone 16 Samples.reservedElements
           (Samples.bufferType 160 16 0) 0 100 200 24 34 false true);
    vm_compute; try reflexivity; repeat split; discriminate.
Defined.

Lemma calcArraysToAlloc_of_constructed_witness :
  calcArraysToAlloc 16 Samples.reservedElements
    (setSizeNeededAndDead 1000 0 (EnumBufferType 16 (2 ^ 31))) 0 100 false
  = Returned 64.
Proof.
  apply (calcArraysToAlloc_of_constructed 16 Samples.reservedElements
           (2 ^ 31) 1000 0 100 false);
    vm_compute; try reflexivity; repeat split; discriminate.
Defined.

End EnumBufferTypeBounds.

(** ** The enum store: edges and compositions *)

Module EnumStoreBaseMore.

Import EnumStoreBase EnumStoreResize.

Lemma find_state_first status k l i :
  DataStore.find_state status k l = Some i ->
  forall j, (k <= j < i)%nat ->
    DataStore.getState (nth (j - k) l DataStore.freeState) <> status.
Proof.
  revert k. induction l as [|b l IH]; intros k; simpl; [discriminate|].
  destruct (DataStore.State_eqb (DataStore.getState b) status) eqn:E.
  - intros [= <-] j Hj. lia.
  - intros H j Hj. destruct (Nat.eq_dec j k) as [->|Hne].
    + rewrite Nat.sub_diag. intros Heq. rewrite Heq in E.
      destruct status; discriminate.
    + replace (j - k)%nat with (S (j - S k)) by lia.
      apply (IH (S k) H). lia.
Qed.

Lemma pushed_app (a b : list event) : pushed (a ++ b) = pushed a ++ pushed b.
Proof.
  induction a as [|e a IH]; simpl; [reflexivity|].
  destruct e; simpl; rewrite IH; reflexivity.
Qed.

Lemma pushed_builder (l : list Index) :
  pushed (map EvBuilderInsert l ++ [EvTreeAssign]) = [].
Proof. induction l; simpl; auto. Qed.

Lemma existsb_reset_app (a b : list event) :
  existsb is_reset (a ++ b) = existsb is_reset a || existsb is_reset b.
Proof. apply existsb_app. Qed.

Section Members.

Context {DataType : Type}.
Context {layout : IndexLayout}.
Context {virtuals : Virtuals DataType}.
Context {collaborators : Collaborators DataType}.
Variable defaultData : DataType.

Abbreviation store := (t DataType).

(** X7: [getBufferIndex] gives the first buffer in the state asked for, and
    [Index::numBuffers()] when no buffer is in that state. *)
Theorem getBufferIndex_first (status : DataStore.State) (s : store) :
  let i := getBufferIndex status s in
  ((i < DataStore.getNumBuffers (_store s))%nat
   /\ DataStore.getState (DataStore.getBufferState (_store s) i) = status
   /\ forall j, (j < i)%nat ->
        DataStore.getState (DataStore.getBufferState (_store s) j) <> status)
  \/ (i = numBuffers
      /\ forall j, (j < DataStore.getNumBuffers (_store s))%nat ->
           DataStore.getState (DataStore.getBufferState (_store s) j)
           <> status).
Proof.
  intros i. subst i. unfold getBufferIndex.
  destruct (DataStore.find_state status 0 (DataStore._states (_store s)))
    as [i|] eqn:E.
  - left.
    pose proof (DataStoreFacts.find_state_Some _ _ _ _ E) as [Hr Hs].
    pose proof (find_state_first _ _ _ _ E) as Hfirst.
    rewrite Nat.sub_0_r in Hs.
    split; [unfold DataStore.getNumBuffers; lia|]. split; [exact Hs|].
    intros j Hj. specialize (Hfirst j ltac:(lia)).
    rewrite Nat.sub_0_r in Hfirst. exact Hfirst.
  - right. split; [reflexivity|]. intros j Hj.
    rewrite DataStoreFacts.find_state_None in E. apply E.
    unfold DataStore.getBufferState. apply nth_In. exact Hj.
Qed.

(** *** Bulk load *)

(** X8: an empty input is still a load: for no bytes available,
    [deserialize] makes no parse step and returns 0; it resets the store,
    which then has one alignment unit recorded as the size needed and no
    dead elements, its buffers dropped and set up anew and its dictionary
    reset; and it replaces the tree by one entry for each index already
    in the index vector. *)
Theorem deserialize_empty_input fuel src idx
    (tree : list (Index * DataType)) (s : store) :
  let '(ret, (idx', tree', s', evs)) :=
    deserialize defaultData fuel src 0 idx tree s in
  ret = Some 0
  /\ idx' = idx
  /\ tree' = map (fun i => (i, defaultData)) idx
  /\ evs = EvReset (EnumBufferType.Index_align alignment 1)
           :: map EvBuilderInsert idx ++ [EvTreeAssign]
  /\ EnumBufferType._minSizeNeeded (_type s')
     = EnumBufferType.Index_align alignment 1
  /\ EnumBufferType._deadElems (_type s') = 0
  /\ EnumBufferType._arraySize (_type s')
     = EnumBufferType._arraySize (_type s)
  /\ _store s' = initActiveBuffers (dropBuffers (clearHoldLists (_store s)))
  /\ _enumDict s' = onReset (_enumDict s)
  /\ _toHoldBuffers s' = _toHoldBuffers s.
Proof. destruct fuel; repeat split. Qed.

Lemma size_pass_stalls fuel src available initSpace :
  0 < available < 2 ^ 64 ->
  (forall i, fst (deserialize_initSpace src available i) = 0) ->
  size_pass fuel src 0 available initSpace
  = (PassOutOfFuel, repeat (EvDeserializeSize 0 available 0) fuel).
Proof.
  intros Hav Hzero. revert initSpace.
  induction fuel as [|fuel IH]; intros initSpace; simpl.
  - destruct (Z.ltb_spec 0 available); [reflexivity|lia].
  - destruct (Z.ltb_spec 0 available); [|lia].
    specialize (Hzero initSpace).
    destruct (deserialize_initSpace src available initSpace)
      as [sz initSpace'].
    simpl in Hzero. subst sz. simpl (0 <? 0). cbv iota.
    rewrite Z.sub_0_r, (wrap64_small available) by lia.
    rewrite (IH initSpace'). reflexivity.
Qed.

(** X9: a size step that reports it consumed nothing, with bytes still
    available, keeps [deserialize] in its first loop for ever: whatever
    the fuel, the load has not returned, every call made is the same size
    step at offset 0, and index vector, tree and store are untouched. *)
Theorem deserialize_stalls_on_zero_size fuel src available idx
    (tree : list (Index * DataType)) (s : store) :
  0 < available < 2 ^ 64 ->
  (forall i, fst (deserialize_initSpace src available i) = 0) ->
  deserialize defaultData fuel src available idx tree s
  = (None,
     (idx, tree, s, repeat (EvDeserializeSize 0 available 0) fuel)).
Proof.
  intros Hav Hzero. unfold deserialize, deserialize0.
  rewrite (size_pass_stalls fuel src available _ Hav Hzero). reflexivity.
Qed.

Lemma size_pass_no_reset fuel src p left initSpace :
  existsb is_reset (snd (size_pass fuel src p left initSpace)) = false
  /\ pushed (snd (size_pass fuel src p left initSpace)) = [].
Proof.
  revert p left initSpace.
  induction fuel as [|fuel IH]; intros p left initSpace; simpl.
  - destruct (0 <? left); split; reflexivity.
  - destruct (0 <? left); [|split; reflexivity].
    destruct (deserialize_initSpace _ left initSpace) as [sz initSpace'].
    destruct (sz <? 0); simpl; [split; reflexivity|].
    specialize (IH (p + sz) (wrap64 (left - sz)) initSpace').
    destruct (size_pass fuel src (p + sz) (wrap64 (left - sz)) initSpace').
    simpl in *. exact IH.
Qed.

Lemma size_pass_return_negative fuel src p left initSpace sz :
  fst (size_pass fuel src p left initSpace) = PassReturn sz -> sz < 0.
Proof.
  intros H.
  pose proof (EnumStoreBaseFacts.size_pass_events fuel src p left initSpace)
    as He.
  rewrite H in He. destruct He as (_ & _ & _ & _ & Hneg & _). exact Hneg.
Qed.

Lemma index_pass_pushed fuel src p left idx1 idx (s : store) :
  fst (fst (snd (index_pass fuel src p left idx1 idx s)))
  = idx ++ pushed (snd (snd (index_pass fuel src p left idx1 idx s))).
Proof.
  revert p left idx1 idx s.
  induction fuel as [|fuel IH]; intros p left idx1 idx s; simpl.
  - destruct (0 <? left); simpl; rewrite app_nil_r; reflexivity.
  - destruct (0 <? left); simpl; [|rewrite app_nil_r; reflexivity].
    destruct (deserialize_index _ left idx1 s) as [[sz idx1'] s'].
    destruct (sz <? 0); simpl; [rewrite app_nil_r; reflexivity|].
    specialize (IH (p + sz) (wrap64 (left - sz)) idx1' (idx ++ [idx1']) s').
    destruct (index_pass fuel src (p + sz) (wrap64 (left - sz)) idx1'
                (idx ++ [idx1']) s') as [r [[idx' s''] evs]].
    simpl in *. rewrite IH, <- app_assoc. reflexivity.
Qed.

(** X10: the store is reset only after the whole input has passed the
    size pass: a load that made no reset call has left index vector, tree
    and store as they were, and has either not returned or returned a
    negative size. *)
Theorem deserialize_untouched_before_reset fuel src available idx
    (tree : list (Index * DataType)) (s : store) :
  let '(ret, (idx', tree', s', evs)) :=
    deserialize defaultData fuel src available idx tree s in
  existsb is_reset evs = false ->
  idx' = idx /\ tree' = tree /\ s' = s
  /\ (ret = None \/ exists sz, ret = Some sz /\ sz < 0).
Proof.
  unfold deserialize, deserialize0.
  pose proof (size_pass_return_negative fuel src 0 available
                (EnumBufferType.Index_align alignment 1)) as Hneg.
  destruct (size_pass fuel src 0 available _) as [r1 evs1].
  simpl in Hneg. destruct r1 as [initSpace|sz|].
  - (* the size pass finished: a reset call was made *)
    destruct (index_pass fuel src 0 available 0 idx (reset initSpace s))
      as [r2 [[idx' s'] evs2]].
    assert (existsb is_reset (evs1 ++ EvReset initSpace :: evs2) = true)
      as Hreset.
    { rewrite existsb_reset_app. simpl. apply orb_true_r. }
    destruct r2 as [left'|sz|].
    + destruct (0 <=? _).
      * rewrite existsb_reset_app, Hreset. discriminate.
      * rewrite Hreset. discriminate.
    + destruct (0 <=? sz).
      * rewrite existsb_reset_app, Hreset. discriminate.
      * rewrite Hreset. discriminate.
    + rewrite Hreset. discriminate.
  - specialize (Hneg sz eq_refl).
    destruct (Z.leb_spec 0 sz); [lia|]. intros _.
    repeat split. right. exists sz. split; [reflexivity|exact Hneg].
  - intros _. repeat split. left. reflexivity.
Qed.

(** X11: in every run of [deserialize], finished or not, the index vector
    keeps what it held and gains exactly the indices pushed, in the order
    of the calls. *)
Theorem deserialize_extends_index_vector fuel src available idx
    (tree : list (Index * DataType)) (s : store) :
  let '(ret, (idx', tree', s', evs)) :=
    deserialize defaultData fuel src available idx tree s in
  idx' = idx ++ pushed evs.
Proof.
  unfold deserialize, deserialize0.
  pose proof (size_pass_no_reset fuel src 0 available
                (EnumBufferType.Index_align alignment 1)) as [_ Hp1].
  destruct (size_pass fuel src 0 available _) as [r1 evs1].
  simpl in Hp1. destruct r1 as [initSpace|sz|].
  - pose proof (index_pass_pushed fuel src 0 available 0 idx
                  (reset initSpace s)) as Hp2.
    destruct (index_pass fuel src 0 available 0 idx (reset initSpace s))
      as [r2 [[idx' s'] evs2]].
    simpl in Hp2.
    assert (idx' = idx ++ pushed (evs1 ++ EvReset initSpace :: evs2)) as H.
    { rewrite pushed_app, Hp1. simpl. exact Hp2. }
    destruct r2 as [left'|sz|].
    + destruct (0 <=? _); [|exact H].
      rewrite pushed_app, pushed_builder, app_nil_r. exact H.
    + destruct (0 <=? sz); [|exact H].
      rewrite pushed_app, pushed_builder, app_nil_r. exact H.
    + exact H.
  - destruct (0 <=? sz).
    + rewrite pushed_app, pushed_builder, Hp1. rewrite app_nil_r. reflexivity.
    + rewrite Hp1, app_nil_r. reflexivity.
  - rewrite Hp1, app_nil_r. reflexivity.
Qed.

(** *** Fix-up of the reference counts *)

Lemma fixup_loop_store (hist : list Z) (tree : list (Index * DataType))
    (s : store) :
  fst (snd (fixup_loop hist tree s)) = apply_history tree hist s.
Proof.
  revert tree s. induction hist as [|rc hist IH]; intros tree s.
  - unfold apply_history. destruct tree; reflexivity.
  - destruct tree as [|[key d] tree]; simpl; [reflexivity|].
    specialize (IH tree (fixupRefCount key rc s)).
    destruct (fixup_loop hist tree (fixupRefCount key rc s))
      as [r [s' evs]].
    simpl in *. exact IH.
Qed.

Lemma fixup_loop_keys (hist : list Z) (tree1 tree2 : list (Index * DataType))
    (s : store) :
  map fst tree1 = map fst tree2 ->
  snd (fixup_loop hist tree1 s) = snd (fixup_loop hist tree2 s)
  /\ match fst (fixup_loop hist tree1 s), fst (fixup_loop hist tree2 s) with
     | Returned rest1, Returned rest2 => map fst rest1 = map fst rest2
     | AssertionFailed, AssertionFailed => True
     | _, _ => False
     end.
Proof.
  revert tree1 tree2 s. induction hist as [|rc hist IH];
    intros tree1 tree2 s Hkeys.
  - simpl. split; [reflexivity|exact Hkeys].
  - destruct tree1 as [|[k1 d1] tree1], tree2 as [|[k2 d2] tree2];
      simpl in Hkeys; try discriminate.
    + simpl. split; [reflexivity|exact I].
    + injection Hkeys as -> Hkeys. simpl.
      specialize (IH tree1 tree2 (fixupRefCount k2 rc s) Hkeys).
      destruct (fixup_loop hist tree1 (fixupRefCount k2 rc s))
        as [r1 [s1 evs1]].
      destruct (fixup_loop hist tree2 (fixupRefCount k2 rc s))
        as [r2 [s2 evs2]].
      simpl in *. destruct IH as [Hsnd Hfst].
      injection Hsnd as -> ->. split; [reflexivity|exact Hfst].
Qed.

(** X12: [fixupRefCounts] reads only the keys of the tree: two trees with
    the same keys in the same order, whatever data their entries carry,
    give the same outcome, the same store and the same calls. *)
Theorem fixupRefCounts_reads_keys_only (hist : list Z)
    (tree1 tree2 : list (Index * DataType)) (s : store) :
  map fst tree1 = map fst tree2 ->
  fixupRefCounts hist tree1 s = fixupRefCounts hist tree2 s.
Proof.
  intros Hkeys. unfold fixupRefCounts.
  destruct hist as [|rc hist]; [reflexivity|].
  destruct (fixup_loop_keys (rc :: hist) tree1 tree2 s Hkeys) as [Hsnd Hfst].
  destruct (fixup_loop (rc :: hist) tree1 s) as [r1 [s1 evs1]].
  destruct (fixup_loop (rc :: hist) tree2 s) as [r2 [s2 evs2]].
  simpl in *. injection Hsnd as -> ->.
  destruct r1 as [rest1| | |], r2 as [rest2| | |]; try contradiction;
    try reflexivity.
  destruct rest1, rest2; simpl in Hfst; try discriminate; reflexivity.
Qed.

(** X13: a fix-up that fails its assertion is not undone: the entries
    passed before the failure keep the counts given to them, and the
    clean-up pass has not run. *)
Theorem fixupRefCounts_failure_keeps_counts (hist : list Z)
    (tree : list (Index * DataType)) (s : store) :
  hist <> [] ->
  length tree <> length hist ->
  fixupRefCounts hist tree s
  = (AssertionFailed,
     (apply_history tree hist s, EvTreeBegin :: fixup_events tree hist)).
Proof.
  intros Hne Hlen. unfold fixupRefCounts.
  destruct hist as [|rc hist]; [congruence|clear Hne].
  pose proof (EnumStoreBaseFacts.fixup_loop_spec (rc :: hist) tree s)
    as (Hevs & Hle & Hlt).
  pose proof (fixup_loop_store (rc :: hist) tree s) as Hstore.
  destruct (fixup_loop (rc :: hist) tree s) as [r [s' evs]].
  simpl fst in *. simpl snd in *. subst s' evs.
  destruct (Nat.lt_ge_cases (length tree) (length (rc :: hist))) as [Hc|Hc].
  - rewrite (Hlt Hc). reflexivity.
  - destruct (Hle Hc) as [-> _].
    destruct (skipn (length (rc :: hist)) tree) as [|x rest] eqn:Eskip.
    + exfalso. pose proof (length_skipn (length (rc :: hist)) tree) as Hl.
      rewrite Eskip in Hl. simpl length in Hl at 1. lia.
    + reflexivity.
Qed.

Lemma apply_history_keys (keys : list Index) (hist : list Z) (s : store) :
  apply_history (map (fun i => (i, defaultData)) keys) hist s
  = fold_left (fun st kh => fixupRefCount (fst kh) (snd kh) st)
      (combine keys hist) s.
Proof.
  unfold apply_history. revert hist s.
  induction keys as [|k keys IH]; intros hist s; [reflexivity|].
  destruct hist as [|h hist]; [reflexivity|]. simpl. apply IH.
Qed.

(** X14: bulk load followed by fix-up: after a load that returned a size
    that is not negative, the fix-up of a history that is not empty
    returns exactly when the history has one count for each index of the
    index vector, and then the store is the loaded store with each index
    given its count, in order, and cleaned up. *)
Theorem fixupRefCounts_after_deserialize fuel src available idx
    (tree : list (Index * DataType)) (s : store) (hist : list Z) (sz : Z) :
  let '(ret, (idx', tree', s', evs)) :=
    deserialize defaultData fuel src available idx tree s in
  ret = Some sz -> 0 <= sz -> hist <> [] ->
  (fst (fixupRefCounts hist tree' s') = Returned tt
   <-> length hist = length idx')
  /\ (length hist = length idx' ->
      fst (snd (fixupRefCounts hist tree' s'))
      = freeUnusedEnums false
          (fold_left (fun st kh => fixupRefCount (fst kh) (snd kh) st)
             (combine idx' hist) s')).
Proof.
  unfold deserialize.
  destruct (deserialize0 fuel src available idx s) as [ret [[idx' s'] evs]].
  destruct ret as [r|]; [|discriminate].
  destruct (Z.leb_spec 0 r) as [Hr|Hr].
  - intros _ _ Hne.
    remember (map (fun i => (i, defaultData)) idx') as tree' eqn:Etree.
    assert (length tree' = length idx') as Hlen
      by (subst tree'; apply length_map).
    unfold fixupRefCounts.
    destruct hist as [|rc hist]; [congruence|clear Hne].
    pose proof (EnumStoreBaseFacts.fixup_loop_spec (rc :: hist) tree' s')
      as (_ & Hle & Hlt).
    pose proof (fixup_loop_store (rc :: hist) tree' s') as Hstore.
    destruct (fixup_loop (rc :: hist) tree' s') as [res [s'' evs']].
    simpl fst in *. simpl snd in *. subst s''.
    destruct (Nat.lt_ge_cases (length tree') (length (rc :: hist)))
      as [Hc|Hc].
    + rewrite (Hlt Hc). simpl fst. split; [|intros; lia].
      split; [discriminate|intros; lia].
    + destruct (Hle Hc) as [-> _].
      destruct (skipn (length (rc :: hist)) tree') as [|x rest] eqn:Eskip.
      * pose proof (length_skipn (length (rc :: hist)) tree') as Hl.
        rewrite Eskip in Hl. simpl length in Hl at 1.
        simpl fst. simpl snd. split.
        -- split; [intros _; lia|reflexivity].
        -- intros _. subst tree'. rewrite apply_history_keys. reflexivity.
      * pose proof (length_skipn (length (rc :: hist)) tree') as Hl.
        rewrite Eskip in Hl. simpl length in Hl at 1.
        simpl fst. split; [|intros; lia].
        split; [discriminate|intros; lia].
  - intros [= ->] Hpos. lia.
Qed.

(** *** Compaction and resize, and the sizing that follows *)

(** X15: the buffer that replaces the active one in a compaction: after
    [preCompact bytesNeeded] has returned true, a buffer that the buffer
    type sizes has room for the elements in use less the dead elements of
    the old active buffer, for [bytesNeeded] (or the request, if larger),
    and for the reserve. *)
Theorem preCompact_sizes_replacement
    (getReserved : EnumBufferType.t -> Z -> Z)
    (bytesNeeded : Z) (s s' : store)
    (bufferId sizeNeeded arrays : Z) (resizing : bool) :
  let activeBuf :=
    DataStore.getBufferState (_store s)
      (DataStore.getActiveBufferId (_store s) TYPE_ID) in
  preCompact bytesNeeded s = (true, s') ->
  0 < alignment < 2 ^ 50 ->
  EnumBufferType._arraySize (_type s) = alignment ->
  0 <= DataStore.getDeadElems activeBuf
    <= EnumBufferType.usedElems (_type s) ->
  EnumBufferType.usedElems (_type s) < 2 ^ 50 ->
  0 <= sizeNeeded < 2 ^ 50 -> 0 <= bytesNeeded < 2 ^ 50 ->
  0 <= getReserved (_type s') bufferId < 2 ^ 50 ->
  EnumBufferType.calcArraysToAlloc alignment getReserved (_type s')
    bufferId sizeNeeded resizing = Returned arrays ->
  EnumBufferType.usedElems (_type s) - DataStore.getDeadElems activeBuf
  + Z.max sizeNeeded bytesNeeded + getReserved (_type s') bufferId
  <= arrays * alignment.
Proof.
  intros activeBuf Hpre Ha Harr Hd Hu Hs Hb Hr Hcall.
  unfold preCompact in Hpre.
  destruct (Nat.eqb _ _); [discriminate|].
  destruct (DataStore.startCompact TYPE_ID (_store s)) as [toHold st].
  injection Hpre as <-. cbn [_type] in Hr, Hcall.
  pose proof (EnumBufferTypeBounds.returned_size_lower alignment getReserved
                (EnumBufferType.setSizeNeededAndDead bytesNeeded
                   (DataStore.getDeadElems activeBuf) (_type s))
                bufferId sizeNeeded arrays resizing
                Ha Harr Hd Hu Hs Hb Hr Hcall) as H.
  cbn [_type]. simpl in H. rewrite Harr in H. exact H.
Qed.

Context {resizing : Resizing}.

(** X16: the buffer after an emergency resize: [fallbackResize] records
    [bytesNeeded] as the size needed and the reserve of the active buffer
    as dead elements, asks for compaction, and has the data store resize
    the active buffer with the buffer type so updated.  The reserve
    recorded as dead cancels the reserve that the sizing adds: the retry
    size is the elements in use plus the need plus the slack, and a buffer
    that the buffer type then sizes for the active buffer has room for
    all elements in use and for [bytesNeeded] (or the request, if
    larger). *)
Theorem fallbackResize_sizes_for_used
    (bytesNeeded : Z) (s : store) (sizeNeeded arrays : Z) (flag : bool) :
  let s' := fallbackResize bytesNeeded s in
  let bufferId :=
    Z.of_nat (DataStore.getActiveBufferId (_store s) TYPE_ID) in
  let reserved := getReservedElements (_type s) bufferId in
  (forall bt1 bt2 b,
     EnumBufferType._arraySize bt1 = EnumBufferType._arraySize bt2 ->
     getReservedElements bt1 b = getReservedElements bt2 b) ->
  0 < alignment < 2 ^ 50 ->
  EnumBufferType._arraySize (_type s) = alignment ->
  0 <= reserved <= EnumBufferType.usedElems (_type s) ->
  EnumBufferType.usedElems (_type s) < 2 ^ 50 ->
  0 <= sizeNeeded < 2 ^ 50 -> 0 <= bytesNeeded < 2 ^ 50 ->
  EnumBufferType.calcArraysToAlloc alignment getReservedElements (_type s')
    bufferId sizeNeeded flag = Returned arrays ->
  EnumBufferType._deadElems (_type s') = reserved
  /\ EnumBufferType._minSizeNeeded (_type s') = bytesNeeded
  /\ EnumBufferType._wantCompact (_type s') = true
  /\ _store s'
     = store_fallbackResize (_type s')
         (DataStore.getActiveBufferId (_store s) TYPE_ID) bytesNeeded
         (_store s)
  /\ _enumDict s' = _enumDict s
  /\ EnumBufferType.retry_size alignment getReservedElements (_type s')
       bufferId sizeNeeded
     = EnumBufferType.alignBufferSize alignment
         (EnumBufferType.usedElems (_type s)
          + Z.max sizeNeeded bytesNeeded + 1000000)
  /\ EnumBufferType.usedElems (_type s) + Z.max sizeNeeded bytesNeeded
     <= arrays * alignment.
Proof.
  intros s' bufferId reserved Hres Ha Harr Hd Hu Hs Hb Hcall.
  split; [reflexivity|]. split; [reflexivity|]. split; [reflexivity|].
  split; [reflexivity|]. split; [reflexivity|].
  assert (getReservedElements (_type s') bufferId = reserved) as Hsame.
  { unfold reserved. apply Hres. reflexivity. }
  assert (EnumBufferType.usedElems (_type s')
          = EnumBufferType.usedElems (_type s)) as Hused by reflexivity.
  split.
  - unfold EnumBufferType.retry_size. rewrite Hsame, Hused.
    change (EnumBufferType._deadElems (_type s')) with reserved.
    change (EnumBufferType._minSizeNeeded (_type s')) with bytesNeeded.
    replace (EnumBufferType.usedElems (_type s) - reserved
             + Z.max sizeNeeded bytesNeeded + reserved + 1000000)
      with (EnumBufferType.usedElems (_type s)
            + Z.max sizeNeeded bytesNeeded + 1000000) by lia.
    rewrite (wrap64_small (EnumBufferType.usedElems (_type s)
                           + Z.max sizeNeeded bytesNeeded + 1000000))
      by lia.
    pose proof (EnumBufferTypeFacts.alignBufferSize_bounds alignment
                  (EnumBufferType.usedElems (_type s)
                   + Z.max sizeNeeded bytesNeeded + 1000000) (proj1 Ha)).
    apply wrap64_small. lia.
  - pose proof (EnumBufferTypeBounds.returned_size_lower alignment
                  getReservedElements (_type s') bufferId sizeNeeded arrays
                  flag Ha Harr) as H.
    rewrite Hsame in H.
    assert (reserved < 2 ^ 50) by lia.
    specialize (H Hd Hu Hs Hb ltac:(lia) Hcall).
    simpl in H. fold bufferId in H. fold reserved in H.
    rewrite Harr in H.
    change (EnumBufferType.usedElems
              (EnumBufferType.setWantCompact
                 (EnumBufferType.setSizeNeededAndDead bytesNeeded reserved
                    (_type s))))
      with (EnumBufferType.usedElems (_type s)) in H.
    lia.
Qed.

End Members.

(** *** Instances *)

Example getBufferIndex_of_sample :
  getBufferIndex (layout := Samples.layout) DataStore.FREE
    (Samples.enumStore DataStore.FREE) = 1%nat
  /\ getBufferIndex (layout := Samples.layout) DataStore.HOLD
       (Samples.enumStore DataStore.FREE) = 2%nat
  /\ getBufferIndex (layout := Samples.layout) DataStore.FREE
       (Samples.enumStore DataStore.HOLD) = 4%nat.
Proof. repeat split. Qed.

Lemma deserialize_stalls_on_zero_size_witness :
  deserialize (layout := Samples.layout) (virtuals := MoreSamples.stalling)
    (collaborators := Samples.collaborators)
    tt 3 Samples.twoRecords 8 [] [(16, tt)]
    (Samples.enumStore DataStore.FREE)
  = (None,
     ([], [(16, tt)], Samples.enumStore DataStore.FREE,
      repeat (EvDeserializeSize 0 8 0) 3)).
Proof.
  apply (deserialize_stalls_on_zero_size (layout := Samples.layout)
           (virtuals := MoreSamples.stalling)
           (collaborators := Samples.collaborators)).
  - lia.
  - reflexivity.
Defined.

Lemma deserialize_untouched_before_reset_witness :
  let run := deserialize (layout := Samples.layout)
               (virtuals := Samples.virtuals)
               (collaborators := Samples.collaborators)
               tt 10 Samples.truncated 10 [7] [(16, tt)]
               (Samples.enumStore DataStore.FREE) in
  fst (fst (fst (snd run))) = [7]
  /\ snd (fst (fst (snd run))) = [(16, tt)].
Proof.
  pose proof (deserialize_untouched_before_reset (layout := Samples.layout)
                (virtuals := Samples.virtuals)
                (collaborators := Samples.collaborators)
                tt 10 Samples.truncated 10 [7] [(16, tt)]
                (Samples.enumStore DataStore.FREE)) as H.
  vm_compute in H. destruct (H eq_refl) as (Hidx & Htree & _).
  vm_compute. split; [exact Hidx|exact Htree].
Defined.

Example deserialize_pushes_two :
  let run := deserialize (layout := Samples.layout)
               (virtuals := Samples.virtuals)
               (collaborators := Samples.collaborators)
               tt 8 Samples.twoRecords 8 [7] []
               (Samples.enumStore DataStore.FREE) in
  pushed (snd (snd run)) = [16; 32]
  /\ fst (fst (fst (snd run))) = [7; 16; 32].
Proof. split; reflexivity. Qed.

Lemma fixupRefCounts_reads_keys_only_witness :
  fixupRefCounts (virtuals := MoreSamples.postings) [2; 5]
    [(16, 1); (32, 2)] MoreSamples.postingStore
  = fixupRefCounts (virtuals := MoreSamples.postings) [2; 5]
      [(16, 7); (32, 9)] MoreSamples.postingStore.
Proof.
  apply (fixupRefCounts_reads_keys_only (virtuals := MoreSamples.postings)).
  reflexivity.
Defined.

Lemma fixupRefCounts_failure_keeps_counts_witness :
  fixupRefCounts (virtuals := MoreSamples.postings) [2; 0; 5]
    [(16, 1); (32, 2)] MoreSamples.postingStore
  = (AssertionFailed,
     (apply_history (virtuals := MoreSamples.postings)
        [(16, 1); (32, 2)] [2; 0; 5] MoreSamples.postingStore,
      [EvTreeBegin; EvFixupRefCount 16 2; EvFixupRefCount 32 0])).
Proof.
  apply (fixupRefCounts_failure_keeps_counts
           (virtuals := MoreSamples.postings)).
  - discriminate.
  - simpl. lia.
Defined.

Example fixupRefCounts_failure_changed_the_store :
  _toHoldBuffers
    (fst (snd (fixupRefCounts (virtuals := MoreSamples.postings) [2; 0; 5]
                 [(16, 1); (32, 2)] MoreSamples.postingStore)))
  = [32%nat; 18%nat].
Proof. reflexivity. Qed.

Lemma fixupRefCounts_after_deserialize_witness :
  let run := deserialize (layout := Samples.layout)
               (virtuals := Samples.virtuals)
               (collaborators := Samples.collaborators)
               tt 8 Samples.twoRecords 8 [] []
               (Samples.enumStore DataStore.FREE) in
  fst (fixupRefCounts (virtuals := Samples.virtuals) [2; 5]
         (snd (fst (fst (snd run)))) (snd (fst (snd run))))
  = Returned tt.
Proof.
  pose proof (fixupRefCounts_after_deserialize (layout := Samples.layout)
                (virtuals := Samples.virtuals)
                (collaborators := Samples.collaborators)
                tt 8 Samples.twoRecords 8 [] []
                (Samples.enumStore DataStore.FREE) [2; 5] 8) as H.
  vm_compute in H.
  destruct H as [Hiff _]; [reflexivity|discriminate|discriminate|].
  vm_compute. apply Hiff. reflexivity.
Defined.

Lemma preCompact_sizes_replacement_witness :
  160 - 48 + Z.max 100 4096 + 0 <= 395 * 16.
Proof.
  apply (preCompact_sizes_replacement (layout := Samples.layout)
           Samples.reservedElements 4096
           (Samples.enumStore DataStore.FREE)
           (snd (preCompact (layout := Samples.layout) 4096
                   (Samples.enumStore DataStore.FREE)))
           1 100 395 false);
    vm_compute; try reflexivity; repeat split; discriminate.
Defined.

Lemma sample_reserve_by_array_size (bt1 bt2 : EnumBufferType.t) (b : Z) :
  EnumBufferType._arraySize bt1 = EnumBufferType._arraySize bt2 ->
  getReservedElements (Resizing := MoreSamples.resizing) bt1 b
  = getReservedElements (Resizing := MoreSamples.resizing) bt2 b.
Proof.
  intros H. simpl. unfold Samples.reservedElements. rewrite H. reflexivity.
Defined.

Lemma fallbackResize_sizes_for_used_witness :
  EnumBufferType._deadElems
    (_type (fallbackResize (layout := Samples.layout)
              (resizing := MoreSamples.resizing) 4096
              (Samples.enumStore DataStore.FREE))) = 16
  /\ EnumBufferType.retry_size 16 Samples.reservedElements
       (_type (fallbackResize (layout := Samples.layout)
                 (resizing := MoreSamples.resizing) 4096
                 (Samples.enumStore DataStore.FREE))) 0 100
     = 1004256
  /\ 160 + Z.max 100 4096 <= 399 * 16.
Proof.
  destruct (fallbackResize_sizes_for_used (layout := Samples.layout)
              (resizing := MoreSamples.resizing) 4096
              (Samples.enumStore DataStore.FREE) 100 399 false
              sample_reserve_by_array_size)
    as (Hdead & _ & _ & _ & _ & Hretry & Hroom);
    [ vm_compute; repeat split; discriminate
    | reflexivity
    | vm_compute; repeat split; discriminate
    | reflexivity
    | vm_compute; repeat split; discriminate
    | vm_compute; repeat split; discriminate
    | reflexivity
    | ].
  split; [exact Hdead|]. split; [exact Hretry|exact Hroom].
Defined.

End EnumStoreBaseMore.
